(** * simple-bank: the transactional transfer of [db/sqlc/store.go]

    A shallow embedding of [execTx], [TransferTx], [validateTransferParams]
    and [updateAccountBalances], and the properties of the transfer that the
    specification states about them.

    Go's [int64] is a [Z] with its wrap-around written out, an [error] is a
    small inductive type with its message, the captured variable [result] of
    the closure passed to [execTx] is threaded explicitly, and every call
    that reaches the database is recorded, in order, in a log. *)

From Stdlib Require Import ZArith String List Lia DecimalString.
From stdpp Require Import gmap strings list fin_maps.

Open Scope string_scope.
Open Scope list_scope.
Open Scope Z_scope.

(** ** 64-bit integers *)

Definition int64_min : Z := - 2 ^ 63.
Definition int64_max : Z := 2 ^ 63 - 1.

Definition int64 (z : Z) : Prop := int64_min <= z <= int64_max.

Definition is_int64 (z : Z) : bool := (int64_min <=? z) && (z <=? int64_max).

(** The value an [int64] expression takes when its exact value is [z]. *)
Definition wrap64 (z : Z) : Z := (z + 2 ^ 63) mod 2 ^ 64 - 2 ^ 63.

(** Go's unary minus on an [int64]. *)
Definition neg64 (z : Z) : Z := wrap64 (- z).

(** ** Errors *)

Inductive error : Type :=
| ErrSameAccount
    (* fmt.Errorf("cannot transfer to the same account") *)
| ErrAmountNotPositive
    (* fmt.Errorf("amount must be positive") *)
| ErrInsufficientBalance (account balance amount : Z)
    (* fmt.Errorf("insufficient balance: account %d has %d, trying to transfer %d", ...) *)
| ErrTxRb (err rbErr : error)
    (* fmt.Errorf("tx err: %v, rb err: %v", err, rbErr) *)
| ErrStore (msg : string).
    (* an error value made below this package: database/sql, driver, accessor *)

Definition fmt_d (z : Z) : string := NilZero.string_of_int (Z.to_int z).

(** The [Error()] text of an error value. *)
Fixpoint Error (e : error) : string :=
  match e with
  | ErrSameAccount => "cannot transfer to the same account"
  | ErrAmountNotPositive => "amount must be positive"
  | ErrInsufficientBalance account balance amount =>
      "insufficient balance: account " +:+ fmt_d account +:+ " has " +:+ fmt_d balance
        +:+ ", trying to transfer " +:+ fmt_d amount
  | ErrTxRb err rbErr => "tx err: " +:+ Error err +:+ ", rb err: " +:+ Error rbErr
  | ErrStore msg => msg
  end.

(** ** Rows *)

(** The row types and the parameter records of the accessor are declared in
    the generated part of the package, outside [store.go]; their fields are
    those of the data model of the specification, all integers being
    [int64]. *)

(** Modelled from the spec: the [Account] row, "identifier (integer), balance
    (integer, minor currency units), currency code". [zero] is [Account{}]. *)
Module Account.
Record t : Type := mk { ID : Z; Balance : Z; Currency : string }.
Definition zero : t := mk 0 0 EmptyString.
End Account.

(** Modelled from the spec: the [Entry] row, "identifier, owning account
    identifier, signed amount (integer)". [zero] is [Entry{}]. *)
Module Entry.
Record t : Type := mk { ID : Z; AccountID : Z; Amount : Z }.
Definition zero : t := mk 0 0 0.
End Entry.

(** Modelled from the spec: the [Transfer] row, "identifier, source account
    identifier, destination account identifier, amount". [zero] is
    [Transfer{}]. *)
Module Transfer.
Record t : Type := mk { ID : Z; FromAccountID : Z; ToAccountID : Z; Amount : Z }.
Definition zero : t := mk 0 0 0 0.
End Transfer.

(** Modelled from the spec: the argument of [CreateTransfer], the
    "transfer-fields"; [TransferTx] converts its own argument to it, so the
    fields are the same three. *)
Record CreateTransferParams : Type :=
  { ctFromAccountID : Z; ctToAccountID : Z; ctAmount : Z }.

(** Modelled from the spec: the argument of [CreateEntry], "account-id,
    amount". *)
Record CreateEntryParams : Type :=
  { ceAccountID : Z; ceAmount : Z }.

(** Modelled from the spec: the argument of [AddAccountBalance],
    "account-id, delta". *)
Record AddAccountBalanceParams : Type :=
  { abID : Z; abAmount : Z }.

(** ** The database *)

Record Tables : Type :=
  { accounts : gmap Z Account.t;
    entries : list Entry.t;
    transfers : list Transfer.t }.

(** A call that reaches the database. *)
Inductive call : Type :=
| OpBeginTx
| OpCommit
| OpRollback
| OpCreateTransfer (arg : CreateTransferParams)
| OpCreateEntry (arg : CreateEntryParams)
| OpGetAccountForUpdate (id : Z)
| OpAddAccountBalance (arg : AddAccountBalanceParams).

(** A call together with the error it came back with, if any. *)
Definition event : Type := call * option error.

(** [SQLStore]: the committed rows, and the calls made so far. *)
Record SQLStore : Type :=
  { tables : Tables;
    log : list event }.

(** [Queries] bound to an open transaction ([New(tx)]): the rows as the
    transaction sees them, and the calls made so far. *)
Record Queries : Type :=
  { rows : Tables;
    calls : list event }.

(** Modelled from the spec: the error of a read or an update of an account
    that is absent ("fails if account absent"). *)
Definition ErrNoRows : error := ErrStore "sql: no rows in result set".

(** Modelled from the spec: the error of an addition whose sum does not fit
    the 64-bit balance column. *)
Definition ErrOutOfRange : error := ErrStore "bigint out of range".

(** The identifier a serial column gives the next row. *)
Definition next_id {A : Type} (l : list A) : Z := Z.of_nat (length l) + 1.

(** ** The request and the result of a transfer ([store.go]) *)

Record TransferTxParams : Type :=
  { FromAccountID : Z; ToAccountID : Z; Amount : Z }.

Record TransferTxResult : Type :=
  { Transfer : Transfer.t;
    FromAccount : Account.t;
    ToAccount : Account.t;
    FromEntry : Entry.t;
    ToEntry : Entry.t }.

(** [TransferTxResult{}] *)
Definition emptyResult : TransferTxResult :=
  {| Transfer := Transfer.zero;
     FromAccount := Account.zero;
     ToAccount := Account.zero;
     FromEntry := Entry.zero;
     ToEntry := Entry.zero |}.

(** The conversion [CreateTransferParams(arg)]. *)
Definition toCreateTransferParams (arg : TransferTxParams) : CreateTransferParams :=
  {| ctFromAccountID := FromAccountID arg;
     ctToAccountID := ToAccountID arg;
     ctAmount := Amount arg |}.

(** [validateTransferParams] *)
Definition validateTransferParams (arg : TransferTxParams) : option error :=
  if FromAccountID arg =? ToAccountID arg then Some ErrSameAccount
  else if Amount arg <=? 0 then Some ErrAmountNotPositive
  else None.

Section Store.

(** What the connection does to each call, by its position in the log:
    [fault n = Some msg] makes the [n]-th call fail with that message
    (lost connection, constraint violation, cancelled context, ...). *)
Variable fault : nat -> option string.

(** The error, if any, that the connection gives the next call, [l] being
    the calls made so far. *)
Definition failure (l : list event) : option error :=
  match fault (length l) with
  | Some msg => Some (ErrStore msg)
  | None => None
  end.

(** [q] after a call that left the rows as they were. *)
Definition record_call (q : Queries) (c : call) (r : option error) : Queries :=
  {| rows := rows q; calls := calls q ++ [(c, r)] |}.

(** *** Transaction boundary *)

(** The "transaction begin/commit/rollback primitives" belong to
    database/sql. A transaction works on its own copy of the rows; commit
    installs the copy, rollback drops it, and a commit or a rollback that
    fails installs nothing. *)

(** Modelled from the spec: [store.db.BeginTx] followed by [New(tx)], the
    begin primitive. When it fails the handle it returns is not used; it only
    carries the log. *)
Definition BeginTx (store : SQLStore) : Queries * option error :=
  let err := failure (log store) in
  ({| rows := tables store; calls := log store ++ [(OpBeginTx, err)] |}, err).

(** Modelled from the spec: [tx.Rollback], the rollback primitive: the rows
    of the store stay the committed ones. *)
Definition Rollback (store : SQLStore) (q : Queries) : SQLStore * option error :=
  let err := failure (calls q) in
  ({| tables := tables store; log := calls q ++ [(OpRollback, err)] |}, err).

(** Modelled from the spec: [tx.Commit], the commit primitive: the rows of
    the transaction become those of the store, unless the commit fails. *)
Definition Commit (store : SQLStore) (q : Queries) : SQLStore * option error :=
  match failure (calls q) with
  | Some e => ({| tables := tables store; log := calls q ++ [(OpCommit, Some e)] |}, Some e)
  | None => ({| tables := rows q; log := calls q ++ [(OpCommit, None)] |}, None)
  end.

(** *** Ledger accessor *)

(** The Ledger Accessor is the generated part of the package, outside
    [store.go]. Each operation returns a row and an error, the zero row when
    it fails, and is one call on the connection. *)

(** Modelled from the spec: "CreateTransfer(transfer-fields) -> Transfer",
    of the Ledger Accessor: a new row with the next identifier. *)
Definition CreateTransfer (q : Queries) (arg : CreateTransferParams)
  : Transfer.t * option error * Queries :=
  match failure (calls q) with
  | Some e => (Transfer.zero, Some e, record_call q (OpCreateTransfer arg) (Some e))
  | None =>
      let i := Transfer.mk (next_id (transfers (rows q)))
                 (ctFromAccountID arg) (ctToAccountID arg) (ctAmount arg) in
      (i, None,
       {| rows := {| accounts := accounts (rows q);
                     entries := entries (rows q);
                     transfers := transfers (rows q) ++ [i] |};
          calls := calls q ++ [(OpCreateTransfer arg, None)] |})
  end.

(** Modelled from the spec: "CreateEntry(account-id, amount) -> Entry", of
    the Ledger Accessor: a new row with the next identifier. *)
Definition CreateEntry (q : Queries) (arg : CreateEntryParams)
  : Entry.t * option error * Queries :=
  match failure (calls q) with
  | Some e => (Entry.zero, Some e, record_call q (OpCreateEntry arg) (Some e))
  | None =>
      let i := Entry.mk (next_id (entries (rows q))) (ceAccountID arg) (ceAmount arg) in
      (i, None,
       {| rows := {| accounts := accounts (rows q);
                     entries := entries (rows q) ++ [i];
                     transfers := transfers (rows q) |};
          calls := calls q ++ [(OpCreateEntry arg, None)] |})
  end.

(** Modelled from the spec: "GetAccountForUpdate(account-id) -> Account
    (blocks until lock acquired, fails if account absent)", of the Ledger
    Accessor. With one transaction at a time the lock is there as soon as the
    row is. *)
Definition GetAccountForUpdate (q : Queries) (id : Z)
  : Account.t * option error * Queries :=
  match failure (calls q) with
  | Some e => (Account.zero, Some e, record_call q (OpGetAccountForUpdate id) (Some e))
  | None =>
      match accounts (rows q) !! id with
      | None =>
          (Account.zero, Some ErrNoRows,
           record_call q (OpGetAccountForUpdate id) (Some ErrNoRows))
      | Some a => (a, None, record_call q (OpGetAccountForUpdate id) None)
      end
  end.

(** Modelled from the spec: "AddAccountBalance(account-id, delta) ->
    Account", the atomic add-and-return of the Ledger Accessor. The balance
    column is a 64-bit integer: a sum outside its range is refused, not
    wrapped. *)
Definition AddAccountBalance (q : Queries) (arg : AddAccountBalanceParams)
  : Account.t * option error * Queries :=
  match failure (calls q) with
  | Some e => (Account.zero, Some e, record_call q (OpAddAccountBalance arg) (Some e))
  | None =>
      match accounts (rows q) !! abID arg with
      | None =>
          (Account.zero, Some ErrNoRows,
           record_call q (OpAddAccountBalance arg) (Some ErrNoRows))
      | Some a =>
          let balance := Account.Balance a + abAmount arg in
          if is_int64 balance then
            let i := Account.mk (Account.ID a) balance (Account.Currency a) in
            (i, None,
             {| rows := {| accounts := <[abID arg := i]> (accounts (rows q));
                           entries := entries (rows q);
                           transfers := transfers (rows q) |};
                calls := calls q ++ [(OpAddAccountBalance arg, None)] |})
          else
            (Account.zero, Some ErrOutOfRange,
             record_call q (OpAddAccountBalance arg) (Some ErrOutOfRange))
      end
  end.

(** *** store.go *)

(** [execTx]. The closure [fn] may assign to variables of the caller; they
    are the state [R] it transforms. *)
Definition execTx {R : Type} (store : SQLStore)
    (fn : Queries -> R -> R * option error * Queries) (r : R)
  : R * option error * SQLStore :=
  let '(tx, err) := BeginTx store in
  match err with
  | Some err => (r, Some err, {| tables := tables store; log := calls tx |})
  | None =>
      let q := tx in
      let '(r, err, q) := fn q r in
      match err with
      | Some err =>
          let '(store', rbErr) := Rollback store q in
          match rbErr with
          | Some rbErr => (r, Some (ErrTxRb err rbErr), store')
          | None => (r, Some err, store')
          end
      | None =>
          let '(store', err) := Commit store q in
          (r, err, store')
      end
  end.

(** [updateAccountBalances] *)
Definition updateAccountBalances (q : Queries) (arg : TransferTxParams)
  : Account.t * Account.t * option error * Queries :=
  let '(firstAccountID, secondAccountID) :=
    if FromAccountID arg >? ToAccountID arg
    then (ToAccountID arg, FromAccountID arg)
    else (FromAccountID arg, ToAccountID arg) in
  let '(firstAccount, err, q) := GetAccountForUpdate q firstAccountID in
  match err with
  | Some err => (Account.zero, Account.zero, Some err, q)
  | None =>
  let '(secondAccount, err, q) := GetAccountForUpdate q secondAccountID in
  match err with
  | Some err => (Account.zero, Account.zero, Some err, q)
  | None =>
  if (firstAccountID =? FromAccountID arg)
     && (Account.Balance firstAccount <? Amount arg)
  then (Account.zero, Account.zero,
        Some (ErrInsufficientBalance (FromAccountID arg)
                (Account.Balance firstAccount) (Amount arg)), q)
  else
  if (secondAccountID =? FromAccountID arg)
     && (Account.Balance secondAccount <? Amount arg)
  then (Account.zero, Account.zero,
        Some (ErrInsufficientBalance (FromAccountID arg)
                (Account.Balance secondAccount) (Amount arg)), q)
  else
  let '(fromAccount, err, q) :=
    AddAccountBalance q {| abID := FromAccountID arg; abAmount := neg64 (Amount arg) |} in
  match err with
  | Some err => (Account.zero, Account.zero, Some err, q)
  | None =>
  let '(toAccount, err, q) :=
    AddAccountBalance q {| abID := ToAccountID arg; abAmount := Amount arg |} in
  match err with
  | Some err => (Account.zero, Account.zero, Some err, q)
  | None => (fromAccount, toAccount, None, q)
  end end end end.

(** The closure that [TransferTx] hands to [execTx]; [result] is the
    variable of [TransferTx] that it assigns to, field by field. *)
Definition transferFn (arg : TransferTxParams) (q : Queries) (result : TransferTxResult)
  : TransferTxResult * option error * Queries :=
  let '(i, err, q) := CreateTransfer q (toCreateTransferParams arg) in
  let result :=
    {| Transfer := i; FromAccount := FromAccount result; ToAccount := ToAccount result;
       FromEntry := FromEntry result; ToEntry := ToEntry result |} in
  match err with
  | Some err => (result, Some err, q)
  | None =>
  let '(i, err, q) :=
    CreateEntry q {| ceAccountID := FromAccountID arg; ceAmount := neg64 (Amount arg) |} in
  let result :=
    {| Transfer := Transfer result; FromAccount := FromAccount result;
       ToAccount := ToAccount result; FromEntry := i; ToEntry := ToEntry result |} in
  match err with
  | Some err => (result, Some err, q)
  | None =>
  let '(i, err, q) :=
    CreateEntry q {| ceAccountID := ToAccountID arg; ceAmount := Amount arg |} in
  let result :=
    {| Transfer := Transfer result; FromAccount := FromAccount result;
       ToAccount := ToAccount result; FromEntry := FromEntry result; ToEntry := i |} in
  match err with
  | Some err => (result, Some err, q)
  | None =>
  let '(fromAccount, toAccount, err, q) := updateAccountBalances q arg in
  let result :=
    {| Transfer := Transfer result; FromAccount := fromAccount; ToAccount := toAccount;
       FromEntry := FromEntry result; ToEntry := ToEntry result |} in
  (result, err, q)
  end end end.

(** [TransferTx] *)
Definition TransferTx (store : SQLStore) (arg : TransferTxParams)
  : TransferTxResult * option error * SQLStore :=
  match validateTransferParams arg with
  | Some err => (emptyResult, Some err, store)
  | None => execTx store (transferFn arg) emptyResult
  end.

End Store.

(** * Vocabulary of the properties *)

(** An account after [amount] was added to its balance. *)
Definition add_balance (a : Account.t) (amount : Z) : Account.t :=
  Account.mk (Account.ID a) (Account.Balance a + amount) (Account.Currency a).

(** The calls of [updateAccountBalances], in the order a run that goes
    through makes them. *)
Definition balance_calls (arg : TransferTxParams) : list call :=
  [ OpGetAccountForUpdate (Z.min (FromAccountID arg) (ToAccountID arg));
    OpGetAccountForUpdate (Z.max (FromAccountID arg) (ToAccountID arg));
    OpAddAccountBalance {| abID := FromAccountID arg; abAmount := neg64 (Amount arg) |};
    OpAddAccountBalance {| abID := ToAccountID arg; abAmount := Amount arg |} ].

(** The calls of the closure of [TransferTx], those of
    [updateAccountBalances] last. *)
Definition transfer_calls (arg : TransferTxParams) : list call :=
  [ OpCreateTransfer (toCreateTransferParams arg);
    OpCreateEntry {| ceAccountID := FromAccountID arg; ceAmount := neg64 (Amount arg) |};
    OpCreateEntry {| ceAccountID := ToAccountID arg; ceAmount := Amount arg |} ]
  ++ balance_calls arg.

(** Calls that all came back without an error. *)
Definition answered (cs : list call) : list event := map (fun c => (c, None)) cs.

(** [run accts arg steps check err l]: a piece of code that makes the calls
    [steps] one after the other, stops at the first that fails, and checks
    the balance of the source account after the first [check] of them, has
    returned [err] and logged [l]; [accts] are the accounts it started from. *)
Inductive run (accts : gmap Z Account.t) (arg : TransferTxParams)
    (steps : list call) (check : nat) : option error -> list event -> Prop :=
| run_done :
    run accts arg steps check None (answered steps)
| run_refused n c msg :
    steps !! n = Some c ->
    run accts arg steps check (Some (ErrStore msg))
      (answered (take n steps) ++ [(c, Some (ErrStore msg))])
| run_insufficient a :
    accts !! FromAccountID arg = Some a ->
    Account.Balance a < Amount arg ->
    run accts arg steps check
      (Some (ErrInsufficientBalance (FromAccountID arg) (Account.Balance a) (Amount arg)))
      (answered (take check steps)).

(** What a transfer that went through has done to the rows it started from,
    and what it has returned. *)
Definition transferred (arg : TransferTxParams) (t : Tables)
    (result : TransferTxResult) (t' : Tables) : Prop :=
  exists a b,
    accounts t !! FromAccountID arg = Some a /\
    accounts t !! ToAccountID arg = Some b /\
    Amount arg <= Account.Balance a /\
    int64 (Account.Balance a + neg64 (Amount arg)) /\
    int64 (Account.Balance b + Amount arg) /\
    let transfer := Transfer.mk (next_id (transfers t))
                      (FromAccountID arg) (ToAccountID arg) (Amount arg) in
    let fromEntry := Entry.mk (next_id (entries t))
                       (FromAccountID arg) (neg64 (Amount arg)) in
    let toEntry := Entry.mk (next_id (entries t) + 1) (ToAccountID arg) (Amount arg) in
    let fromAccount := add_balance a (neg64 (Amount arg)) in
    let toAccount := add_balance b (Amount arg) in
    result = {| Transfer := transfer; FromAccount := fromAccount; ToAccount := toAccount;
                FromEntry := fromEntry; ToEntry := toEntry |} /\
    t' = {| accounts := <[ToAccountID arg := toAccount]>
                          (<[FromAccountID arg := fromAccount]> (accounts t));
            entries := entries t ++ [fromEntry; toEntry];
            transfers := transfers t ++ [transfer] |}.

(** The calls of a whole [TransferTx] on a request that passed validation,
    and the error it returns: the transaction is not begun, or its closure
    fails and it is rolled back (or the rollback fails as well), or the
    closure goes through and it is committed (or the commit fails). *)
Inductive transfer_run (accts : gmap Z Account.t) (arg : TransferTxParams)
  : option error -> list event -> Prop :=
| tx_not_begun msg :
    transfer_run accts arg (Some (ErrStore msg)) [(OpBeginTx, Some (ErrStore msg))]
| tx_rolled_back e l :
    run accts arg (transfer_calls arg) 5 (Some e) l ->
    transfer_run accts arg (Some e) ((OpBeginTx, None) :: l ++ [(OpRollback, None)])
| tx_rollback_failed e l msg :
    run accts arg (transfer_calls arg) 5 (Some e) l ->
    transfer_run accts arg (Some (ErrTxRb e (ErrStore msg)))
      ((OpBeginTx, None) :: l ++ [(OpRollback, Some (ErrStore msg))])
| tx_committed :
    transfer_run accts arg None
      ((OpBeginTx, None) :: answered (transfer_calls arg) ++ [(OpCommit, None)])
| tx_commit_failed msg :
    transfer_run accts arg (Some (ErrStore msg))
      ((OpBeginTx, None) :: answered (transfer_calls arg)
         ++ [(OpCommit, Some (ErrStore msg))]).

(** The [count] calls from position [start] on are not made to fail. *)
Definition quiet (fault : nat -> option string) (start count : nat) : Prop :=
  forall n, (start <= n < start + count)%nat -> fault n = None.

(** What the closure has assigned to [result] by the time the balances are
    looked at. *)
Definition result_before_update (arg : TransferTxParams) (t : Tables) : TransferTxResult :=
  {| Transfer := Transfer.mk (next_id (transfers t))
                   (FromAccountID arg) (ToAccountID arg) (Amount arg);
     FromAccount := Account.zero;
     ToAccount := Account.zero;
     FromEntry := Entry.mk (next_id (entries t)) (FromAccountID arg) (neg64 (Amount arg));
     ToEntry := Entry.mk (next_id (entries t) + 1) (ToAccountID arg) (Amount arg) |}.

(** The accounts that [GetAccountForUpdate] was called on, in the order of
    the calls. *)
Definition lock_calls (l : list event) : list Z :=
  flat_map (fun ev => match ev with
                      | (OpGetAccountForUpdate id, _) => [id]
                      | _ => []
                      end) l.

(** The accounts that [GetAccountForUpdate] returned, and so locked, in the
    order of the calls. *)
Definition locks_acquired (l : list event) : list Z :=
  flat_map (fun ev => match ev with
                      | (OpGetAccountForUpdate id, None) => [id]
                      | _ => []
                      end) l.

(** The calls that create a row, in the order they were made. *)
Definition create_calls (l : list event) : list call :=
  flat_map (fun ev => match ev with
                      | (OpCreateTransfer arg, _) => [OpCreateTransfer arg]
                      | (OpCreateEntry arg, _) => [OpCreateEntry arg]
                      | _ => []
                      end) l.

(** [updateAccountBalances] as the specification would have it: after the
    two locks, in the same order, a single check of the balance of the
    account that is the source, whichever of the two locks returned it. *)
Definition updateAccountBalances_unified (fault : nat -> option string)
    (q : Queries) (arg : TransferTxParams)
  : Account.t * Account.t * option error * Queries :=
  let '(firstAccountID, secondAccountID) :=
    if FromAccountID arg >? ToAccountID arg
    then (ToAccountID arg, FromAccountID arg)
    else (FromAccountID arg, ToAccountID arg) in
  let '(firstAccount, err, q) := GetAccountForUpdate fault q firstAccountID in
  match err with
  | Some err => (Account.zero, Account.zero, Some err, q)
  | None =>
  let '(secondAccount, err, q) := GetAccountForUpdate fault q secondAccountID in
  match err with
  | Some err => (Account.zero, Account.zero, Some err, q)
  | None =>
  let sourceAccount :=
    if firstAccountID =? FromAccountID arg then firstAccount else secondAccount in
  if Account.Balance sourceAccount <? Amount arg
  then (Account.zero, Account.zero,
        Some (ErrInsufficientBalance (FromAccountID arg)
                (Account.Balance sourceAccount) (Amount arg)), q)
  else
  let '(fromAccount, err, q) :=
    AddAccountBalance fault q
      {| abID := FromAccountID arg; abAmount := neg64 (Amount arg) |} in
  match err with
  | Some err => (Account.zero, Account.zero, Some err, q)
  | None =>
  let '(toAccount, err, q) :=
    AddAccountBalance fault q {| abID := ToAccountID arg; abAmount := Amount arg |} in
  match err with
  | Some err => (Account.zero, Account.zero, Some err, q)
  | None => (fromAccount, toAccount, None, q)
  end end end end.

(** Two accounts, X = 1 with 1000 and Y = 2 with 500, and no transfer yet. *)
Definition demo_tables : Tables :=
  {| accounts := <[1 := Account.mk 1 1000 "USD"]> (<[2 := Account.mk 2 500 "USD"]> ∅);
     entries := [];
     transfers := [] |}.

(** The store with these rows, before any call. *)
Definition demo_store : SQLStore := {| tables := demo_tables; log := [] |}.

(** The transfer of 200 from X to Y. *)
Definition demo_transfer : TransferTxParams :=
  {| FromAccountID := 1; ToAccountID := 2; Amount := 200 |}.

(** A transfer of 600 from Y to X, which Y cannot pay. *)
Definition demo_overdraft : TransferTxParams :=
  {| FromAccountID := 2; ToAccountID := 1; Amount := 600 |}.

(** A connection on which no call is made to fail. *)
Definition reliable : nat -> option string := fun _ => None.

(** A connection on which the call at position [n] fails with [msg]. *)
Definition failing_at (n : nat) (msg : string) : nat -> option string :=
  fun k => if Nat.eqb k n then Some msg else None.

(** The request that sends the amount of [arg] back. *)
Definition reverse (arg : TransferTxParams) : TransferTxParams :=
  {| FromAccountID := ToAccountID arg;
     ToAccountID := FromAccountID arg;
     Amount := Amount arg |}.

(** The sum of the amounts of all the entries. *)
Definition entries_sum (es : list Entry.t) : Z :=
  fold_right (fun e acc => Entry.Amount e + acc) 0 es.

(** The sum of the amounts of the entries of account [id]. *)
Definition account_entries_sum (id : Z) (es : list Entry.t) : Z :=
  fold_right (fun e acc => if Entry.AccountID e =? id then Entry.Amount e + acc else acc) 0 es.

(** The calls that end a transaction. *)
Definition is_commit (c : call) : bool :=
  match c with OpCommit => true | _ => false end.

Definition is_rollback (c : call) : bool :=
  match c with OpRollback => true | _ => false end.

(** The calls that update a balance. *)
Definition is_update (c : call) : bool :=
  match c with OpAddAccountBalance _ => true | _ => false end.

(** No call of [l] is one of those that [p] picks. *)
Definition never (p : call -> bool) (l : list event) : Prop :=
  forall c r, In (c, r) l -> p c = false.

(** What [TransferTx] returns for the transfer of 200 from X to Y on a
    connection that answers. *)
Definition demo_after : TransferTxResult * option error * SQLStore :=
  Eval vm_compute in TransferTx reliable demo_store demo_transfer.

(** * Properties *)

(** ** Arithmetic of [int64] *)

Lemma is_int64_spec z : is_int64 z = true <-> int64 z.
Proof.
  unfold is_int64, int64. rewrite andb_true_iff, !Z.leb_le. tauto.
Qed.

Lemma wrap64_id z : int64 z -> wrap64 z = z.
Proof.
  unfold int64, int64_min, int64_max, wrap64. intros Hz.
  rewrite Z.mod_small by lia. lia.
Qed.

Lemma neg64_pos z : 0 < z -> int64 z -> neg64 z = - z.
Proof.
  intros Hpos Hz. unfold neg64. apply wrap64_id.
  unfold int64, int64_min, int64_max in *. lia.
Qed.

(** Negating a positive amount never gives less than its exact opposite. *)
Lemma neg64_ge z : 0 < z -> - z <= neg64 z.
Proof.
  intros Hpos. unfold neg64, wrap64.
  pose proof (Z.div_mod (- z + 2 ^ 63) (2 ^ 64) ltac:(lia)) as Hdm.
  assert ((- z + 2 ^ 63) / 2 ^ 64 <= 0).
  { assert ((- z + 2 ^ 63) / 2 ^ 64 < 1); [|lia].
    apply Z.div_lt_upper_bound; lia. }
  nia.
Qed.

(** ** One call at a time *)

Section Calls.

Variable fault : nat -> option string.

Lemma failure_None l : fault (length l) = None -> failure fault l = None.
Proof. unfold failure. intros ->. reflexivity. Qed.

Lemma failure_Some l msg :
  fault (length l) = Some msg -> failure fault l = Some (ErrStore msg).
Proof. unfold failure. intros ->. reflexivity. Qed.

Lemma failure_None_inv l : failure fault l = None -> fault (length l) = None.
Proof. unfold failure. destruct (fault (length l)); [discriminate | reflexivity]. Qed.

(** An error that [failure] hands out is an error of the store. *)
Lemma failure_inv l e : failure fault l = Some e -> exists msg, e = ErrStore msg.
Proof. unfold failure. destruct (fault (length l)); intros [= <-]; eauto. Qed.

(** What a call to the accessor leaves behind: one more entry in the log,
    carrying the error the call returned, and, when it went through, the
    row and the rows of the transaction as stated. *)

Lemma CreateTransfer_inv q arg i err q' :
  CreateTransfer fault q arg = (i, err, q') ->
  calls q' = calls q ++ [(OpCreateTransfer arg, err)] /\
  match err with
  | Some e => i = Transfer.zero /\ exists msg, e = ErrStore msg
  | None =>
      i = Transfer.mk (next_id (transfers (rows q)))
            (ctFromAccountID arg) (ctToAccountID arg) (ctAmount arg) /\
      rows q' = {| accounts := accounts (rows q);
                   entries := entries (rows q);
                   transfers := transfers (rows q) ++ [i] |}
  end.
Proof.
  unfold CreateTransfer, record_call.
  destruct (failure fault (calls q)) eqn:Hf; intros [= <- <- <-]; simpl; auto.
  apply failure_inv in Hf. auto.
Qed.

Lemma CreateEntry_inv q arg i err q' :
  CreateEntry fault q arg = (i, err, q') ->
  calls q' = calls q ++ [(OpCreateEntry arg, err)] /\
  match err with
  | Some e => i = Entry.zero /\ exists msg, e = ErrStore msg
  | None =>
      i = Entry.mk (next_id (entries (rows q))) (ceAccountID arg) (ceAmount arg) /\
      rows q' = {| accounts := accounts (rows q);
                   entries := entries (rows q) ++ [i];
                   transfers := transfers (rows q) |}
  end.
Proof.
  unfold CreateEntry, record_call.
  destruct (failure fault (calls q)) eqn:Hf; intros [= <- <- <-]; simpl; auto.
  apply failure_inv in Hf. auto.
Qed.

Lemma GetAccountForUpdate_inv q id i err q' :
  GetAccountForUpdate fault q id = (i, err, q') ->
  calls q' = calls q ++ [(OpGetAccountForUpdate id, err)] /\
  rows q' = rows q /\
  match err with
  | Some e => i = Account.zero /\ exists msg, e = ErrStore msg
  | None => accounts (rows q) !! id = Some i
  end.
Proof.
  unfold GetAccountForUpdate, record_call.
  destruct (failure fault (calls q)) eqn:Hf.
  { apply failure_inv in Hf. intros [= <- <- <-]; simpl; auto. }
  destruct (accounts (rows q) !! id) eqn:Hid; intros [= <- <- <-]; simpl; auto.
  unfold ErrNoRows. eauto 6.
Qed.

Lemma AddAccountBalance_inv q arg i err q' :
  AddAccountBalance fault q arg = (i, err, q') ->
  calls q' = calls q ++ [(OpAddAccountBalance arg, err)] /\
  match err with
  | Some e => i = Account.zero /\ exists msg, e = ErrStore msg
  | None =>
      exists a,
        accounts (rows q) !! abID arg = Some a /\
        int64 (Account.Balance a + abAmount arg) /\
        i = add_balance a (abAmount arg) /\
        rows q' = {| accounts := <[abID arg := i]> (accounts (rows q));
                     entries := entries (rows q);
                     transfers := transfers (rows q) |}
  end.
Proof.
  unfold AddAccountBalance, record_call.
  destruct (failure fault (calls q)) eqn:Hf.
  { apply failure_inv in Hf. intros [= <- <- <-]; simpl; auto. }
  destruct (accounts (rows q) !! abID arg) as [a|] eqn:Hid;
    [| intros [= <- <- <-]; simpl; unfold ErrNoRows; eauto 6].
  destruct (is_int64 (Account.Balance a + abAmount arg)) eqn:Hr;
    intros [= <- <- <-]; simpl; [| unfold ErrOutOfRange; eauto 6].
  split; [reflexivity |]. exists a. rewrite <- is_int64_spec. auto.
Qed.

(** The same calls, forwards: what they return when the store answers. *)

Lemma CreateTransfer_ok q arg :
  fault (length (calls q)) = None ->
  CreateTransfer fault q arg =
    (let i := Transfer.mk (next_id (transfers (rows q)))
                (ctFromAccountID arg) (ctToAccountID arg) (ctAmount arg) in
     (i, None,
      {| rows := {| accounts := accounts (rows q);
                    entries := entries (rows q);
                    transfers := transfers (rows q) ++ [i] |};
         calls := calls q ++ [(OpCreateTransfer arg, None)] |})).
Proof. intros H. unfold CreateTransfer. rewrite failure_None by assumption. reflexivity. Qed.

Lemma CreateEntry_ok q arg :
  fault (length (calls q)) = None ->
  CreateEntry fault q arg =
    (let i := Entry.mk (next_id (entries (rows q))) (ceAccountID arg) (ceAmount arg) in
     (i, None,
      {| rows := {| accounts := accounts (rows q);
                    entries := entries (rows q) ++ [i];
                    transfers := transfers (rows q) |};
         calls := calls q ++ [(OpCreateEntry arg, None)] |})).
Proof. intros H. unfold CreateEntry. rewrite failure_None by assumption. reflexivity. Qed.

Lemma GetAccountForUpdate_ok q id a :
  fault (length (calls q)) = None ->
  accounts (rows q) !! id = Some a ->
  GetAccountForUpdate fault q id = (a, None, record_call q (OpGetAccountForUpdate id) None).
Proof.
  intros H Ha. unfold GetAccountForUpdate.
  rewrite failure_None by assumption. rewrite Ha. reflexivity.
Qed.

Lemma AddAccountBalance_ok q arg a :
  fault (length (calls q)) = None ->
  accounts (rows q) !! abID arg = Some a ->
  int64 (Account.Balance a + abAmount arg) ->
  AddAccountBalance fault q arg =
    (add_balance a (abAmount arg), None,
     {| rows := {| accounts := <[abID arg := add_balance a (abAmount arg)]> (accounts (rows q));
                   entries := entries (rows q);
                   transfers := transfers (rows q) |};
        calls := calls q ++ [(OpAddAccountBalance arg, None)] |}).
Proof.
  intros H Ha Hr. unfold AddAccountBalance.
  rewrite failure_None by assumption. rewrite Ha.
  apply is_int64_spec in Hr. rewrite Hr. reflexivity.
Qed.

End Calls.

(** ** Runs *)

(** A run after calls that were all answered. *)
Lemma run_prepend accts arg pre steps check err l :
  run accts arg steps check err l ->
  run accts arg (pre ++ steps) (length pre + check) err (answered pre ++ l).
Proof.
  intros [ | n c msg Hn | a Ha Hlt].
  - unfold answered. rewrite <- map_app. constructor.
  - rewrite app_assoc. unfold answered. rewrite <- map_app.
    replace (pre ++ take n steps) with (take (length pre + n) (pre ++ steps))
      by (rewrite take_app_add; reflexivity).
    apply run_refused.
    rewrite lookup_app_r by lia. rewrite <- Hn. f_equal. lia.
  - unfold answered. rewrite <- map_app.
    replace (pre ++ take check steps) with (take (length pre + check) (pre ++ steps))
      by (rewrite take_app_add; reflexivity).
    apply run_insufficient; assumption.
Qed.

(** The order of the two locks. *)
Lemma lock_order (from to : Z) :
  (if from >? to then (to, from) else (from, to)) = (Z.min from to, Z.max from to).
Proof.
  destruct (Z.gtb_spec from to); f_equal; lia.
Qed.

(** Closes a goal [run ... (Some (ErrStore msg)) l] for a run that the store
    refused at its [n]-th call. *)
Ltac refused n :=
  match goal with
  | |- run ?accts ?arg ?steps ?check (Some (ErrStore ?msg)) _ =>
      exact (run_refused accts arg steps check n _ msg eq_refl)
  end.

(** The two tests of [updateAccountBalances] on the locked accounts amount to
    one test on the account that is the source. *)
Lemma check_source {T : Type} (first second from amount : Z) (a1 a2 : Account.t)
    (X : Z -> T) (Y : T) :
  first = from \/ second = from ->
  (first = second -> a1 = a2) ->
  (if (first =? from) && (Account.Balance a1 <? amount) then X (Account.Balance a1)
   else if (second =? from) && (Account.Balance a2 <? amount) then X (Account.Balance a2)
   else Y) =
  (let source := if first =? from then a1 else a2 in
   if Account.Balance source <? amount then X (Account.Balance source) else Y).
Proof.
  intros Hside Hsame. simpl.
  destruct (Z.eqb_spec first from) as [Hf|Hf]; simpl.
  - destruct (Account.Balance a1 <? amount) eqn:H1; [reflexivity|].
    destruct (Z.eqb_spec second from) as [Hs|Hs]; simpl; [|reflexivity].
    rewrite <- (Hsame (eq_trans Hf (eq_sym Hs))), H1. reflexivity.
  - destruct Hside as [?|Hs]; [contradiction|].
    rewrite (proj2 (Z.eqb_eq second from) Hs). reflexivity.
Qed.

(** ** [updateAccountBalances] *)

Section Balances.

Variable fault : nat -> option string.

Lemma updateAccountBalances_inv q arg fromAccount toAccount err q' :
  FromAccountID arg <> ToAccountID arg ->
  updateAccountBalances fault q arg = (fromAccount, toAccount, err, q') ->
  exists l,
    calls q' = calls q ++ l /\
    run (accounts (rows q)) arg (balance_calls arg) 2 err l /\
    match err with
    | Some _ => fromAccount = Account.zero /\ toAccount = Account.zero
    | None =>
        exists a b,
          accounts (rows q) !! FromAccountID arg = Some a /\
          accounts (rows q) !! ToAccountID arg = Some b /\
          Amount arg <= Account.Balance a /\
          int64 (Account.Balance a + neg64 (Amount arg)) /\
          int64 (Account.Balance b + Amount arg) /\
          fromAccount = add_balance a (neg64 (Amount arg)) /\
          toAccount = add_balance b (Amount arg) /\
          rows q' = {| accounts := <[ToAccountID arg := toAccount]>
                                     (<[FromAccountID arg := fromAccount]>
                                        (accounts (rows q)));
                       entries := entries (rows q);
                       transfers := transfers (rows q) |}
    end.
Proof.
  intros Hne H. unfold updateAccountBalances in H.
  rewrite lock_order in H.
  assert (Hside : Z.min (FromAccountID arg) (ToAccountID arg) = FromAccountID arg /\
                  Z.max (FromAccountID arg) (ToAccountID arg) = ToAccountID arg \/
                  Z.min (FromAccountID arg) (ToAccountID arg) = ToAccountID arg /\
                  Z.max (FromAccountID arg) (ToAccountID arg) = FromAccountID arg) by lia.
  unfold balance_calls.
  set (first := Z.min _ _) in *. set (second := Z.max _ _) in *.
  destruct (GetAccountForUpdate fault q first) as [[a1 err1] q1] eqn:H1.
  apply GetAccountForUpdate_inv in H1 as (Hc1 & Hr1 & Hv1).
  destruct err1 as [e1|].
  { destruct Hv1 as [_ [msg ->]]. injection H as <- <- <- <-.
    eexists. split; [eassumption|]. split; [|auto].
    refused 0%nat. }
  destruct (GetAccountForUpdate fault q1 second) as [[a2 err2] q2] eqn:H2.
  apply GetAccountForUpdate_inv in H2 as (Hc2 & Hr2 & Hv2).
  rewrite Hc1 in Hc2. rewrite <- app_assoc in Hc2. simpl in Hc2.
  rewrite Hr1 in *. 
  destruct err2 as [e2|].
  { destruct Hv2 as [_ [msg ->]]. injection H as <- <- <- <-.
    eexists. split; [eassumption|]. split; [|auto].
    refused 1%nat. }
  rewrite (check_source first second (FromAccountID arg) (Amount arg) a1 a2
             (fun b => (Account.zero, Account.zero,
                        Some (ErrInsufficientBalance (FromAccountID arg) b (Amount arg)), q2)))
    in H by (first [lia | intros; congruence]).
  simpl in H.
  set (a := if first =? FromAccountID arg then a1 else a2) in *.
  set (b := if first =? FromAccountID arg then a2 else a1).
  assert (Ha : accounts (rows q) !! FromAccountID arg = Some a).
  { subst a. destruct (Z.eqb_spec first (FromAccountID arg)); [congruence|].
    destruct Hside as [[? ?]|[? <-]]; [contradiction | assumption]. }
  assert (Hb : accounts (rows q) !! ToAccountID arg = Some b).
  { subst b. destruct (Z.eqb_spec first (FromAccountID arg)) as [Hf|Hf].
    - destruct Hside as [[_ <-]|[? ?]]; [assumption | congruence].
    - destruct Hside as [[? ?]|[<- _]]; [contradiction | assumption]. }
  clearbody a b.
  destruct (Z.ltb_spec (Account.Balance a) (Amount arg)) as [Hlt|Hge].
  { injection H as <- <- <- <-.
    eexists. split; [eassumption|]. split; [|auto].
    exact (run_insufficient _ _ _ 2%nat a Ha Hlt). }
  destruct (AddAccountBalance fault q2 _) as [[a' err3] q3] eqn:H3.
  apply AddAccountBalance_inv in H3 as (Hc3 & Hv3).
  rewrite Hc2 in Hc3. rewrite <- app_assoc in Hc3. simpl in Hc3, Hv3.
  destruct err3 as [e3|].
  { destruct Hv3 as [_ [msg ->]]. injection H as <- <- <- <-.
    eexists. split; [eassumption|]. split; [|auto]. refused 2%nat. }
  destruct Hv3 as (a0 & Ha0 & Hi3 & -> & Hr3).
  rewrite Hr2, Ha in Ha0. injection Ha0 as <-.
  destruct (AddAccountBalance fault q3 _) as [[b' err4] q4] eqn:H4.
  apply AddAccountBalance_inv in H4 as (Hc4 & Hv4).
  rewrite Hc3 in Hc4. rewrite <- app_assoc in Hc4. simpl in Hc4, Hv4.
  destruct err4 as [e4|].
  { destruct Hv4 as [_ [msg ->]]. injection H as <- <- <- <-.
    eexists. split; [eassumption|]. split; [|auto]. refused 3%nat. }
  destruct Hv4 as (b0 & Hb0 & Hi4 & -> & Hr4).
  rewrite Hr3 in Hb0. simpl in Hb0.
  rewrite lookup_insert_ne in Hb0 by assumption.
  rewrite Hr2, Hb in Hb0. injection Hb0 as <-.
  injection H as <- <- <- <-.
  eexists. split; [eassumption|]. split; [apply run_done|].
  exists a, b. rewrite Hr4, Hr3, Hr2. simpl. auto 10.
Qed.

End Balances.

Lemma next_id_snoc {A : Type} (l : list A) (x : A) : next_id (l ++ [x]) = next_id l + 1.
Proof. unfold next_id. rewrite length_app. simpl. lia. Qed.

(** ** The closure of [TransferTx] *)

Section Closure.

Variable fault : nat -> option string.

Lemma transferFn_inv q arg result result' err q' :
  FromAccountID arg <> ToAccountID arg ->
  transferFn fault arg q result = (result', err, q') ->
  exists l,
    calls q' = calls q ++ l /\
    run (accounts (rows q)) arg (transfer_calls arg) 5 err l /\
    (err = None -> transferred arg (rows q) result' (rows q')).
Proof.
  intros Hne H. unfold transferFn in H.
  destruct (CreateTransfer fault q _) as [[i1 err1] q1] eqn:H1.
  apply CreateTransfer_inv in H1 as (Hc1 & Hv1).
  destruct err1 as [e1|].
  { destruct Hv1 as [_ [msg ->]]. injection H as <- <- <-.
    eexists. split; [eassumption|]. split; [refused 0%nat | discriminate]. }
  destruct Hv1 as (Hi1 & Hr1). simpl in Hi1.
  destruct (CreateEntry fault q1 _) as [[i2 err2] q2] eqn:H2.
  apply CreateEntry_inv in H2 as (Hc2 & Hv2).
  rewrite Hc1 in Hc2. rewrite <- app_assoc in Hc2. simpl in Hc2, Hv2.
  destruct err2 as [e2|].
  { destruct Hv2 as [_ [msg ->]]. injection H as <- <- <-.
    eexists. split; [eassumption|]. split; [refused 1%nat | discriminate]. }
  destruct Hv2 as (Hi2 & Hr2).
  destruct (CreateEntry fault q2 _) as [[i3 err3] q3] eqn:H3.
  apply CreateEntry_inv in H3 as (Hc3 & Hv3).
  rewrite Hc2 in Hc3. rewrite <- app_assoc in Hc3. simpl in Hc3, Hv3.
  destruct err3 as [e3|].
  { destruct Hv3 as [_ [msg ->]]. injection H as <- <- <-.
    eexists. split; [eassumption|]. split; [refused 2%nat | discriminate]. }
  destruct Hv3 as (Hi3 & Hr3).
  destruct (updateAccountBalances fault q3 arg) as [[[fa ta] err4] q4] eqn:H4.
  apply updateAccountBalances_inv in H4 as (l & Hc4 & Hrun & Hv4); [|assumption].
  injection H as <- <- <-. simpl.
  rewrite Hc3 in Hc4. rewrite <- app_assoc in Hc4.
  eexists. split; [eassumption|]. split.
  - replace (accounts (rows q)) with (accounts (rows q3))
      by (rewrite Hr3, Hr2, Hr1; reflexivity).
    exact (run_prepend _ arg
             [OpCreateTransfer (toCreateTransferParams arg);
              OpCreateEntry {| ceAccountID := FromAccountID arg;
                               ceAmount := neg64 (Amount arg) |};
              OpCreateEntry {| ceAccountID := ToAccountID arg;
                               ceAmount := Amount arg |}]
             _ 2 _ _ Hrun).
  - intros ->. destruct Hv4 as (a & b & Ha & Hb & Hge & Hia & Hib & -> & -> & Hr4).
    rewrite Hr3, Hr2, Hr1 in Ha, Hb, Hr4. simpl in Ha, Hb, Hr4.
    exists a, b. repeat (split; [assumption|]). simpl.
    rewrite Hr4, Hi1, Hi2, Hi3, Hr2, Hr1. simpl.
    rewrite <- app_assoc. simpl. rewrite next_id_snoc. auto.
Qed.

End Closure.

(** ** [execTx] and [TransferTx] *)

Section Transaction.

Variable fault : nat -> option string.

Lemma validateTransferParams_None arg :
  validateTransferParams arg = None <->
  FromAccountID arg <> ToAccountID arg /\ 0 < Amount arg.
Proof.
  unfold validateTransferParams.
  destruct (Z.eqb_spec (FromAccountID arg) (ToAccountID arg));
    destruct (Z.leb_spec (Amount arg) 0); split; try discriminate; try tauto; lia.
Qed.

(** [execTx] either installs the rows its closure leaves, when it returns
    no error, or leaves the rows of the store as they were. *)
Lemma execTx_inv {R : Type} store (fn : Queries -> R -> R * option error * Queries)
    r r' err store' :
  execTx fault store fn r = (r', err, store') ->
  let q := {| rows := tables store; calls := log store ++ [(OpBeginTx, None)] |} in
  (exists msg,
      err = Some (ErrStore msg) /\ r' = r /\ tables store' = tables store /\
      log store' = log store ++ [(OpBeginTx, Some (ErrStore msg))]) \/
  (exists e q',
      fn q r = (r', Some e, q') /\ tables store' = tables store /\
      (err = Some e /\ log store' = calls q' ++ [(OpRollback, None)] \/
       exists msg, err = Some (ErrTxRb e (ErrStore msg)) /\
                   log store' = calls q' ++ [(OpRollback, Some (ErrStore msg))])) \/
  (exists q',
      fn q r = (r', None, q') /\
      (err = None /\ tables store' = rows q' /\
       log store' = calls q' ++ [(OpCommit, None)] \/
       exists msg, err = Some (ErrStore msg) /\ tables store' = tables store /\
                   log store' = calls q' ++ [(OpCommit, Some (ErrStore msg))])).
Proof.
  intros H q. unfold execTx, BeginTx, Rollback, Commit in H.
  destruct (failure fault (log store)) as [e0|] eqn:Hb.
  { apply failure_inv in Hb as [msg ->]. injection H as <- <- <-.
    left. exists msg. auto. }
  fold q in H.
  destruct (fn q r) as [[r1 [e|]] q1] eqn:Hfn.
  - right; left. exists e, q1.
    destruct (failure fault (calls q1)) as [rb|] eqn:Hrb.
    + apply failure_inv in Hrb as [msg ->]. injection H as <- <- <-. simpl. eauto 8.
    + injection H as <- <- <-. simpl. auto.
  - right; right. exists q1.
    destruct (failure fault (calls q1)) as [ce|] eqn:Hce.
    + apply failure_inv in Hce as [msg ->]. injection H as <- <- <-. simpl. eauto 8.
    + injection H as <- <- <-. simpl. auto.
Qed.

Lemma TransferTx_inv store arg result err store' :
  validateTransferParams arg = None ->
  TransferTx fault store arg = (result, err, store') ->
  exists l,
    log store' = log store ++ l /\
    transfer_run (accounts (tables store)) arg err l /\
    match err with
    | Some _ => tables store' = tables store
    | None => transferred arg (tables store) result (tables store')
    end.
Proof.
  intros Hvalid H. unfold TransferTx in H. rewrite Hvalid in H.
  apply validateTransferParams_None in Hvalid as [Hne Hpos].
  apply execTx_inv in H. simpl in H.
  destruct H as [(msg & -> & _ & Ht & Hl) | [(e & q' & Hfn & Ht & H) | (q' & Hfn & H)]].
  - eexists. split; [eassumption|]. split; [constructor | assumption].
  - apply transferFn_inv in Hfn as (l & Hc & Hrun & _); [|assumption].
    simpl in Hc, Hrun.
    destruct H as [[-> Hl] | (msg & -> & Hl)];
      rewrite Hc, <- !app_assoc in Hl; simpl in Hl;
      (eexists; split; [eassumption|]; split; [constructor | ]; assumption).
  - apply transferFn_inv in Hfn as (l & Hc & Hrun & Hok); [|assumption].
    simpl in Hc, Hrun, Hok. specialize (Hok eq_refl).
    inversion Hrun; subst.
    destruct H as [(-> & Ht & Hl) | (msg & -> & Ht & Hl)];
      rewrite Hc, <- !app_assoc in Hl; simpl in Hl;
      (eexists; split; [eassumption|]; split; [constructor | ]).
    + rewrite Ht. assumption.
    + assumption.
Qed.

End Transaction.

(** ** Runs on a store that answers *)

Section Answering.

Variable fault : nat -> option string.

Ltac answers Hq :=
  apply Hq; simpl; rewrite ?length_app; simpl; lia.

Lemma updateAccountBalances_insufficient q arg a b :
  FromAccountID arg <> ToAccountID arg ->
  accounts (rows q) !! FromAccountID arg = Some a ->
  accounts (rows q) !! ToAccountID arg = Some b ->
  quiet fault (length (calls q)) 2 ->
  Account.Balance a < Amount arg ->
  updateAccountBalances fault q arg =
    (Account.zero, Account.zero,
     Some (ErrInsufficientBalance (FromAccountID arg) (Account.Balance a) (Amount arg)),
     {| rows := rows q;
        calls := calls q ++ answered (take 2 (balance_calls arg)) |}).
Proof.
  intros Hne Ha Hb Hq Hlt. unfold updateAccountBalances, balance_calls.
  destruct (Z.gtb_spec (FromAccountID arg) (ToAccountID arg)) as [Hgt|Hle].
  - rewrite Z.min_r, Z.max_l by lia.
    rewrite (GetAccountForUpdate_ok fault q _ b) by (first [assumption | answers Hq]).
    rewrite (GetAccountForUpdate_ok fault _ _ a) by (first [assumption | answers Hq]).
    rewrite (proj2 (Z.eqb_neq _ _) (not_eq_sym Hne)), Z.eqb_refl.
    rewrite (proj2 (Z.ltb_lt _ _) Hlt). unfold record_call. simpl.
    rewrite <- ?app_assoc. reflexivity.
  - rewrite Z.min_l, Z.max_r by lia.
    rewrite (GetAccountForUpdate_ok fault q _ a) by (first [assumption | answers Hq]).
    rewrite (GetAccountForUpdate_ok fault _ _ b) by (first [assumption | answers Hq]).
    rewrite Z.eqb_refl, (proj2 (Z.ltb_lt _ _) Hlt). unfold record_call. simpl.
    rewrite <- ?app_assoc. reflexivity.
Qed.

Lemma updateAccountBalances_ok q arg a b :
  FromAccountID arg <> ToAccountID arg ->
  accounts (rows q) !! FromAccountID arg = Some a ->
  accounts (rows q) !! ToAccountID arg = Some b ->
  quiet fault (length (calls q)) 4 ->
  Amount arg <= Account.Balance a ->
  int64 (Account.Balance a + neg64 (Amount arg)) ->
  int64 (Account.Balance b + Amount arg) ->
  updateAccountBalances fault q arg =
    (add_balance a (neg64 (Amount arg)), add_balance b (Amount arg), None,
     {| rows := {| accounts := <[ToAccountID arg := add_balance b (Amount arg)]>
                                 (<[FromAccountID arg := add_balance a (neg64 (Amount arg))]>
                                    (accounts (rows q)));
                   entries := entries (rows q);
                   transfers := transfers (rows q) |};
        calls := calls q ++ answered (balance_calls arg) |}).
Proof.
  intros Hne Ha Hb Hq Hge Hia Hib. unfold updateAccountBalances, balance_calls.
  assert (Hnlt : (Account.Balance a <? Amount arg) = false) by (apply Z.ltb_ge; lia).
  destruct (Z.gtb_spec (FromAccountID arg) (ToAccountID arg)) as [Hgt|Hle].
  - rewrite Z.min_r, Z.max_l by lia.
    rewrite (GetAccountForUpdate_ok fault q _ b) by (first [assumption | answers Hq]).
    rewrite (GetAccountForUpdate_ok fault _ _ a) by (first [assumption | answers Hq]).
    rewrite (proj2 (Z.eqb_neq _ _) (not_eq_sym Hne)), Z.eqb_refl, Hnlt. simpl.
    rewrite (AddAccountBalance_ok fault _ _ a) by (first [assumption | answers Hq]).
    rewrite (AddAccountBalance_ok fault _ _ b)
      by (first [assumption | answers Hq
                 | simpl; rewrite lookup_insert_ne by assumption; assumption]).
    unfold record_call. simpl. rewrite <- ?app_assoc. reflexivity.
  - rewrite Z.min_l, Z.max_r by lia.
    rewrite (GetAccountForUpdate_ok fault q _ a) by (first [assumption | answers Hq]).
    rewrite (GetAccountForUpdate_ok fault _ _ b) by (first [assumption | answers Hq]).
    rewrite Z.eqb_refl, Hnlt, (proj2 (Z.eqb_neq _ _) (not_eq_sym Hne)). simpl.
    rewrite (AddAccountBalance_ok fault _ _ a) by (first [assumption | answers Hq]).
    rewrite (AddAccountBalance_ok fault _ _ b)
      by (first [assumption | answers Hq
                 | simpl; rewrite lookup_insert_ne by assumption; assumption]).
    unfold record_call. simpl. rewrite <- ?app_assoc. reflexivity.
Qed.

Ltac still_quiet Hq :=
  let n := fresh "n" in
  let Hn := fresh "Hn" in
  intros n Hn; simpl in Hn; rewrite ?length_app in Hn; simpl in Hn; apply Hq; lia.

Lemma TransferTx_insufficient store arg a b :
  validateTransferParams arg = None ->
  accounts (tables store) !! FromAccountID arg = Some a ->
  accounts (tables store) !! ToAccountID arg = Some b ->
  quiet fault (length (log store)) 7 ->
  Account.Balance a < Amount arg ->
  TransferTx fault store arg =
    (result_before_update arg (tables store),
     Some (ErrInsufficientBalance (FromAccountID arg) (Account.Balance a) (Amount arg)),
     {| tables := tables store;
        log := log store ++ (OpBeginTx, None) :: answered (take 5 (transfer_calls arg))
                 ++ [(OpRollback, None)] |}).
Proof.
  intros Hvalid Ha Hb Hq Hlt. unfold TransferTx. rewrite Hvalid.
  apply validateTransferParams_None in Hvalid as [Hne Hpos].
  unfold execTx, BeginTx. rewrite failure_None by answers Hq.
  unfold transferFn.
  rewrite CreateTransfer_ok by answers Hq. simpl.
  rewrite CreateEntry_ok by answers Hq. simpl.
  rewrite CreateEntry_ok by answers Hq. simpl.
  rewrite (updateAccountBalances_insufficient _ arg a b)
    by (first [assumption | still_quiet Hq]).
  unfold Rollback. rewrite failure_None by answers Hq. simpl.
  unfold result_before_update. rewrite next_id_snoc.
  rewrite <- !app_assoc. reflexivity.
Qed.

Lemma TransferTx_ok store arg a b :
  validateTransferParams arg = None ->
  accounts (tables store) !! FromAccountID arg = Some a ->
  accounts (tables store) !! ToAccountID arg = Some b ->
  quiet fault (length (log store)) 9 ->
  Amount arg <= Account.Balance a ->
  int64 (Account.Balance a + neg64 (Amount arg)) ->
  int64 (Account.Balance b + Amount arg) ->
  exists result store',
    TransferTx fault store arg = (result, None, store') /\
    log store' = log store ++ (OpBeginTx, None) :: answered (transfer_calls arg)
                   ++ [(OpCommit, None)].
Proof.
  intros Hvalid Ha Hb Hq Hge Hia Hib. unfold TransferTx. rewrite Hvalid.
  apply validateTransferParams_None in Hvalid as [Hne Hpos].
  unfold execTx, BeginTx. rewrite failure_None by answers Hq.
  unfold transferFn.
  rewrite CreateTransfer_ok by answers Hq. simpl.
  rewrite CreateEntry_ok by answers Hq. simpl.
  rewrite CreateEntry_ok by answers Hq. simpl.
  rewrite (updateAccountBalances_ok _ arg a b)
    by (first [assumption | still_quiet Hq]).
  unfold Commit. rewrite failure_None by answers Hq. simpl.
  do 2 eexists. split; [reflexivity|]. simpl.
  rewrite <- !app_assoc. reflexivity.
Qed.

End Answering.

(** ** The two locks, on a store that answers *)

Section Locking.

Variable fault : nat -> option string.

(** With both accounts there and its two reads answered,
    [updateAccountBalances] has locked the account of the smaller ID, then
    that of the larger one, before anything else. *)
Lemma updateAccountBalances_locks q arg a b fromAccount toAccount err q' :
  accounts (rows q) !! FromAccountID arg = Some a ->
  accounts (rows q) !! ToAccountID arg = Some b ->
  quiet fault (length (calls q)) 2 ->
  updateAccountBalances fault q arg = (fromAccount, toAccount, err, q') ->
  exists rest,
    calls q' = calls q
                 ++ (OpGetAccountForUpdate (Z.min (FromAccountID arg) (ToAccountID arg)), None)
                 :: (OpGetAccountForUpdate (Z.max (FromAccountID arg) (ToAccountID arg)), None)
                 :: rest /\
    lock_calls rest = [].
Proof.
  intros Ha Hb Hq H. unfold updateAccountBalances in H. rewrite lock_order in H.
  assert (Hfirst : exists a1,
             accounts (rows q) !! Z.min (FromAccountID arg) (ToAccountID arg) = Some a1).
  { destruct (Z.min_spec (FromAccountID arg) (ToAccountID arg)) as [[_ ->] | [_ ->]]; eauto. }
  assert (Hsecond : exists a2,
             accounts (rows q) !! Z.max (FromAccountID arg) (ToAccountID arg) = Some a2).
  { destruct (Z.max_spec (FromAccountID arg) (ToAccountID arg)) as [[_ ->] | [_ ->]]; eauto. }
  set (first := Z.min _ _) in *. set (second := Z.max _ _) in *.
  destruct Hfirst as [a1 H1]. destruct Hsecond as [a2 H2].
  rewrite (GetAccountForUpdate_ok fault q first a1) in H
    by (first [assumption | apply Hq; lia]).
  rewrite (GetAccountForUpdate_ok fault _ second a2) in H
    by (first [assumption | simpl; rewrite length_app; simpl; apply Hq; lia]).
  unfold record_call in H. simpl in H. rewrite <- app_assoc in H. simpl in H.
  destruct ((first =? FromAccountID arg) && (Account.Balance a1 <? Amount arg)).
  { injection H as _ _ _ <-. exists []. auto. }
  destruct ((second =? FromAccountID arg) && (Account.Balance a2 <? Amount arg)).
  { injection H as _ _ _ <-. exists []. auto. }
  destruct (AddAccountBalance fault _ _) as [[a' err3] q3] eqn:H3 in H.
  apply AddAccountBalance_inv in H3 as (Hc3 & _).
  simpl in Hc3. rewrite <- app_assoc in Hc3. simpl in Hc3.
  destruct err3 as [e3|].
  { injection H as _ _ _ <-. eexists. split; [eassumption | reflexivity]. }
  destruct (AddAccountBalance fault q3 _) as [[b' err4] q4] eqn:H4 in H.
  apply AddAccountBalance_inv in H4 as (Hc4 & _).
  rewrite Hc3 in Hc4. rewrite <- app_assoc in Hc4. simpl in Hc4.
  destruct err4 as [e4|]; injection H as _ _ _ <-;
    (eexists; split; [eassumption | reflexivity]).
Qed.

Lemma lock_calls_app l1 l2 : lock_calls (l1 ++ l2) = lock_calls l1 ++ lock_calls l2.
Proof. unfold lock_calls. apply flat_map_app. Qed.

Lemma locks_acquired_app l1 l2 :
  locks_acquired (l1 ++ l2) = locks_acquired l1 ++ locks_acquired l2.
Proof. unfold locks_acquired. apply flat_map_app. Qed.

(** No more locks are obtained than are asked for. *)
Lemma locks_acquired_none l : lock_calls l = [] -> locks_acquired l = [].
Proof.
  induction l as [|[c r] l IH]; [reflexivity|].
  destruct c; simpl; try assumption; discriminate.
Qed.

(** For a valid request between two accounts that are there, on a store that
    answers the begin, the three creations and the two reads, [TransferTx]
    has called for the two locks, and obtained them, the smaller ID first. *)
Lemma TransferTx_locks store arg a b result err store' l :
  validateTransferParams arg = None ->
  accounts (tables store) !! FromAccountID arg = Some a ->
  accounts (tables store) !! ToAccountID arg = Some b ->
  quiet fault (length (log store)) 6 ->
  TransferTx fault store arg = (result, err, store') ->
  log store' = log store ++ l ->
  lock_calls l = [Z.min (FromAccountID arg) (ToAccountID arg);
                  Z.max (FromAccountID arg) (ToAccountID arg)] /\
  locks_acquired l = [Z.min (FromAccountID arg) (ToAccountID arg);
                      Z.max (FromAccountID arg) (ToAccountID arg)].
Proof.
  intros Hvalid Ha Hb Hq H Hl. unfold TransferTx in H. rewrite Hvalid in H.
  unfold execTx, BeginTx in H.
  rewrite failure_None in H by (apply Hq; lia).
  unfold transferFn in H.
  rewrite CreateTransfer_ok in H by (simpl; rewrite ?length_app; simpl; apply Hq; lia).
  simpl in H.
  rewrite CreateEntry_ok in H by (simpl; rewrite ?length_app; simpl; apply Hq; lia).
  simpl in H.
  rewrite CreateEntry_ok in H by (simpl; rewrite ?length_app; simpl; apply Hq; lia).
  simpl in H.
  destruct (updateAccountBalances fault _ arg) as [[[fa ta] err4] q4] eqn:H4 in H.
  apply (updateAccountBalances_locks _ arg a b) in H4 as (rest & Hc4 & Hrest);
    [| assumption | assumption
     | intros n Hn; simpl in Hn; rewrite ?length_app in Hn; simpl in Hn; apply Hq; lia].
  simpl in Hc4. rewrite <- !app_assoc in Hc4. simpl in Hc4.
  assert (Hlog : exists ending r,
             (is_commit ending = true \/ is_rollback ending = true) /\
             log store' = calls q4 ++ [(ending, r)]).
  { unfold Rollback, Commit in H.
    destruct err4 as [e4|].
    - destruct (failure fault (calls q4)); injection H as _ _ <-;
        exists OpRollback; eexists; (split; [right; reflexivity | reflexivity]).
    - destruct (failure fault (calls q4)); injection H as _ _ <-;
        exists OpCommit; eexists; (split; [left; reflexivity | reflexivity]). }
  destruct Hlog as (ending & r & Hkind & Hlog).
  rewrite Hc4, <- !app_assoc in Hlog. simpl in Hlog.
  rewrite Hl in Hlog. apply app_inv_head in Hlog.
  assert (Hlast : lock_calls (rest ++ [(ending, r)]) = []).
  { rewrite lock_calls_app, Hrest. simpl.
    destruct ending; try reflexivity; destruct Hkind; discriminate. }
  assert (Hsplit :
            l = [ (OpBeginTx, None);
                  (OpCreateTransfer (toCreateTransferParams arg), None);
                  (OpCreateEntry {| ceAccountID := FromAccountID arg;
                                    ceAmount := neg64 (Amount arg) |}, None);
                  (OpCreateEntry {| ceAccountID := ToAccountID arg;
                                    ceAmount := Amount arg |}, None);
                  (OpGetAccountForUpdate
                     (Z.min (FromAccountID arg) (ToAccountID arg)), None);
                  (OpGetAccountForUpdate
                     (Z.max (FromAccountID arg) (ToAccountID arg)), None) ]
                ++ (rest ++ [(ending, r)]))
    by (rewrite Hlog; reflexivity).
  rewrite Hsplit, lock_calls_app, locks_acquired_app, Hlast,
    (locks_acquired_none _ Hlast).
  split; reflexivity.
Qed.

End Locking.

Lemma answered_no_error cs c e : ~ In (c, Some e) (answered cs).
Proof.
  unfold answered. rewrite in_map_iff. intros (c' & Heq & _). discriminate.
Qed.

(** An insufficient-balance error never comes from the store: when
    [TransferTx] returns one, it names the source account, its balance and
    the amount, and the balance is below the amount. *)
Lemma TransferTx_insufficient_inv fault store arg result account balance amount store' a :
  validateTransferParams arg = None ->
  accounts (tables store) !! FromAccountID arg = Some a ->
  TransferTx fault store arg
    = (result, Some (ErrInsufficientBalance account balance amount), store') ->
  account = FromAccountID arg /\ balance = Account.Balance a /\ amount = Amount arg /\
  Account.Balance a < Amount arg.
Proof.
  intros Hvalid Ha H.
  apply TransferTx_inv in H as (l & _ & Hrun & _); [|assumption].
  inversion Hrun as [msg | e l0 Hfn | e l0 msg Hfn | | msg]; subst.
  inversion Hfn as [ | n c msg' Hn | a0 Ha0 Hlt]; subst.
  rewrite Ha in Ha0. injection Ha0 as <-. auto.
Qed.

(** * The properties of the specification *)

(** C1. For every request with distinct account IDs, a positive amount and a
    source balance of at least the amount, a [TransferTx] that succeeds
    leaves the balance of the source account decreased by exactly the amount
    and that of the destination account increased by exactly the amount, so
    that their sum is unchanged; [FromAccount] and [ToAccount] of the result
    are the two accounts as updated. *)
Theorem transfer_moves_amount fault store arg result store' a b :
  FromAccountID arg <> ToAccountID arg ->
  0 < Amount arg ->
  int64 (Amount arg) ->
  accounts (tables store) !! FromAccountID arg = Some a ->
  accounts (tables store) !! ToAccountID arg = Some b ->
  Amount arg <= Account.Balance a ->
  TransferTx fault store arg = (result, None, store') ->
  exists a' b',
    accounts (tables store') !! FromAccountID arg = Some a' /\
    accounts (tables store') !! ToAccountID arg = Some b' /\
    Account.Balance a' = Account.Balance a - Amount arg /\
    Account.Balance b' = Account.Balance b + Amount arg /\
    Account.Balance a' + Account.Balance b' = Account.Balance a + Account.Balance b /\
    FromAccount result = a' /\
    ToAccount result = b'.
Proof.
  intros Hne Hpos Hamt Ha Hb Hge H.
  apply TransferTx_inv in H as (l & _ & _ & Hdone);
    [| apply validateTransferParams_None; auto].
  destruct Hdone as (a0 & b0 & Ha0 & Hb0 & _ & _ & _ & -> & ->).
  rewrite Ha in Ha0. injection Ha0 as <-.
  rewrite Hb in Hb0. injection Hb0 as <-.
  rewrite neg64_pos by assumption.
  exists (add_balance a (- Amount arg)), (add_balance b (Amount arg)). simpl.
  rewrite lookup_insert_ne by auto.
  rewrite !lookup_insert_eq.
  repeat split; lia.
Qed.

(** The example of the specification: 200 from X (1000) to Y (500) leaves
    800 and 700. *)
Lemma transfer_moves_amount_example :
  exists a' b',
    accounts (tables (TransferTx reliable demo_store demo_transfer).2) !! 1 = Some a' /\
    accounts (tables (TransferTx reliable demo_store demo_transfer).2) !! 2 = Some b' /\
    Account.Balance a' = 1000 - 200 /\
    Account.Balance b' = 500 + 200 /\
    Account.Balance a' + Account.Balance b' = 1000 + 500 /\
    FromAccount (TransferTx reliable demo_store demo_transfer).1.1 = a' /\
    ToAccount (TransferTx reliable demo_store demo_transfer).1.1 = b'.
Proof.
  apply (transfer_moves_amount reliable demo_store demo_transfer
           (TransferTx reliable demo_store demo_transfer).1.1
           (TransferTx reliable demo_store demo_transfer).2
           (Account.mk 1 1000 "USD") (Account.mk 2 500 "USD")).
  - simpl. lia.
  - simpl. lia.
  - unfold int64, int64_min, int64_max. simpl. lia.
  - reflexivity.
  - reflexivity.
  - simpl. lia.
  - reflexivity.
Defined.

(** C2. For every valid request whose source account has a balance B below
    the amount when both locks are held, [TransferTx] fails with the
    insufficient-balance error, whose text names the source account, B and
    the amount; the transaction is rolled back, and the transfers, the
    entries and the accounts of the store are what they were. The store
    answers the seven calls of such a run: the begin, the three creations,
    the two locks and the rollback. *)
Theorem insufficient_funds_rolls_back fault store arg a b :
  validateTransferParams arg = None ->
  accounts (tables store) !! FromAccountID arg = Some a ->
  accounts (tables store) !! ToAccountID arg = Some b ->
  quiet fault (length (log store)) 7 ->
  Account.Balance a < Amount arg ->
  exists result e store',
    TransferTx fault store arg = (result, Some e, store') /\
    e = ErrInsufficientBalance (FromAccountID arg) (Account.Balance a) (Amount arg) /\
    Error e = "insufficient balance: account " +:+ fmt_d (FromAccountID arg)
                +:+ " has " +:+ fmt_d (Account.Balance a)
                +:+ ", trying to transfer " +:+ fmt_d (Amount arg) /\
    transfers (tables store') = transfers (tables store) /\
    entries (tables store') = entries (tables store) /\
    accounts (tables store') = accounts (tables store) /\
    In (OpRollback, None) (log store').
Proof.
  intros Hvalid Ha Hb Hq Hlt.
  do 3 eexists. split; [apply (TransferTx_insufficient fault store arg a b); assumption|].
  simpl. repeat split.
  apply in_or_app. right. simpl. tauto.
Qed.

Lemma insufficient_funds_rolls_back_example :
  exists result e store',
    TransferTx reliable demo_store demo_overdraft = (result, Some e, store') /\
    e = ErrInsufficientBalance 2 500 600 /\
    Error e = "insufficient balance: account 2 has 500, trying to transfer 600" /\
    transfers (tables store') = [] /\
    entries (tables store') = [] /\
    accounts (tables store') = accounts demo_tables /\
    In (OpRollback, None) (log store').
Proof.
  apply (insufficient_funds_rolls_back reliable demo_store demo_overdraft
           (Account.mk 2 500 "USD") (Account.mk 1 1000 "USD")).
  - reflexivity.
  - reflexivity.
  - reflexivity.
  - intros n _. reflexivity.
  - simpl. lia.
Defined.

(** C3. For every request whose two account IDs are equal, or whose amount
    is zero or negative, [TransferTx] fails with the validation error before
    anything reaches the database: the result is empty and the store, its
    log of calls included, is the one it was given, so that no transaction
    was begun, no row created and no balance changed. *)
Theorem invalid_request_rejected fault store arg :
  FromAccountID arg = ToAccountID arg \/ Amount arg <= 0 ->
  exists e,
    (e = ErrSameAccount \/ e = ErrAmountNotPositive) /\
    validateTransferParams arg = Some e /\
    TransferTx fault store arg = (emptyResult, Some e, store).
Proof.
  intros Hbad. unfold TransferTx, validateTransferParams.
  destruct (Z.eqb_spec (FromAccountID arg) (ToAccountID arg)) as [Heq|Hne].
  - exists ErrSameAccount. auto.
  - destruct (Z.leb_spec (Amount arg) 0) as [Hle|Hgt].
    + exists ErrAmountNotPositive. auto.
    + destruct Hbad; [contradiction | lia].
Qed.

Lemma invalid_request_rejected_example :
  exists e,
    (e = ErrSameAccount \/ e = ErrAmountNotPositive) /\
    validateTransferParams {| FromAccountID := 1; ToAccountID := 2; Amount := 0 |} = Some e /\
    TransferTx reliable demo_store {| FromAccountID := 1; ToAccountID := 2; Amount := 0 |}
      = (emptyResult, Some e, demo_store).
Proof.
  apply (invalid_request_rejected reliable demo_store
           {| FromAccountID := 1; ToAccountID := 2; Amount := 0 |}).
  right. simpl. lia.
Defined.

(** C4. For every valid request, [TransferTx] takes the row locks in
    ascending order of account ID, whichever of the two accounts is the
    source. When the two accounts are there and the store answers the begin,
    the three creations and the two reads, it calls for exactly two locks and
    obtains them, that of the smaller ID first and that of the larger ID
    second. On every run, whatever fails, the calls that lock and the locks
    they obtain are an initial part of [smaller ID; larger ID]; a balance is
    only updated, and the transfer only succeeds, with both locks obtained
    in that order. *)
Theorem locks_taken_in_ascending_order fault store arg result err store' :
  validateTransferParams arg = None ->
  TransferTx fault store arg = (result, err, store') ->
  let smaller := Z.min (FromAccountID arg) (ToAccountID arg) in
  let larger := Z.max (FromAccountID arg) (ToAccountID arg) in
  exists l,
    log store' = log store ++ l /\
    lock_calls l `prefix_of` [smaller; larger] /\
    locks_acquired l `prefix_of` [smaller; larger] /\
    (forall x r, In (OpAddAccountBalance x, r) l -> locks_acquired l = [smaller; larger]) /\
    (err = None -> locks_acquired l = [smaller; larger]) /\
    (forall a b,
        accounts (tables store) !! FromAccountID arg = Some a ->
        accounts (tables store) !! ToAccountID arg = Some b ->
        quiet fault (length (log store)) 6 ->
        lock_calls l = [smaller; larger] /\ locks_acquired l = [smaller; larger]).
Proof.
  intros Hvalid H smaller larger.
  pose proof H as Hrun0.
  apply TransferTx_inv in H as (l & Hl & Hrun & _); [|assumption].
  exists l. split; [assumption|].
  assert (Hlocked : forall a b,
             accounts (tables store) !! FromAccountID arg = Some a ->
             accounts (tables store) !! ToAccountID arg = Some b ->
             quiet fault (length (log store)) 6 ->
             lock_calls l = [smaller; larger] /\ locks_acquired l = [smaller; larger]).
  { intros a b Ha Hb Hq.
    apply (TransferTx_locks fault store arg a b result err store' l); assumption. }
  assert (Hp0 : [] `prefix_of` [smaller; larger]) by (eexists; reflexivity).
  assert (Hp1 : [smaller] `prefix_of` [smaller; larger]) by (eexists; reflexivity).
  assert (Hp2 : [smaller; larger] `prefix_of` [smaller; larger]) by reflexivity.
  cut (lock_calls l `prefix_of` [smaller; larger] /\
       locks_acquired l `prefix_of` [smaller; larger] /\
       (forall x r, In (OpAddAccountBalance x, r) l ->
                    locks_acquired l = [smaller; larger]) /\
       (err = None -> locks_acquired l = [smaller; larger])).
  { intros (H1 & H2 & H3 & H4). auto 6. }
  clear Hlocked Hrun0 Hl.
  inversion Hrun as [msg | e l0 Hfn | e l0 msg Hfn | | msg]; subst;
    try (inversion Hfn as [ | n c msg' Hn | a Ha Hlt]; subst;
         try (do 7 (try destruct n as [|n]); simpl in Hn; try discriminate;
              injection Hn as <-));
    cbn [transfer_calls balance_calls answered take map app flat_map
         lock_calls locks_acquired];
    fold smaller larger;
    (repeat split; try assumption; try discriminate; try reflexivity;
     intros x r Hin; simpl in Hin; intuition discriminate).
Qed.

(** 200 from X to Y, and 200 from Y to X: account 1 is locked first, then
    account 2, both times. *)
Lemma locks_taken_in_ascending_order_example :
  (exists l,
      log (TransferTx reliable demo_store demo_transfer).2 = log demo_store ++ l /\
      lock_calls l = [1; 2] /\ locks_acquired l = [1; 2]) /\
  (exists l,
      log (TransferTx reliable demo_store (reverse demo_transfer)).2 = log demo_store ++ l /\
      lock_calls l = [1; 2] /\ locks_acquired l = [1; 2]).
Proof.
  split.
  - destruct (locks_taken_in_ascending_order reliable demo_store demo_transfer
                (TransferTx reliable demo_store demo_transfer).1.1
                (TransferTx reliable demo_store demo_transfer).1.2
                (TransferTx reliable demo_store demo_transfer).2
                eq_refl eq_refl)
      as (l & Hl & _ & _ & _ & _ & Hlocked).
    exists l. split; [exact Hl|].
    apply (Hlocked (Account.mk 1 1000 "USD") (Account.mk 2 500 "USD")).
    + reflexivity.
    + reflexivity.
    + intros n _. reflexivity.
  - destruct (locks_taken_in_ascending_order reliable demo_store (reverse demo_transfer)
                (TransferTx reliable demo_store (reverse demo_transfer)).1.1
                (TransferTx reliable demo_store (reverse demo_transfer)).1.2
                (TransferTx reliable demo_store (reverse demo_transfer)).2
                eq_refl eq_refl)
      as (l & Hl & _ & _ & _ & _ & Hlocked).
    exists l. split; [exact Hl|].
    apply (Hlocked (Account.mk 2 500 "USD") (Account.mk 1 1000 "USD")).
    + reflexivity.
    + reflexivity.
    + intros n _. reflexivity.
Defined.

(** C5, on the code: a transfer that fails for want of funds returns, next
    to the error, a result whose transfer and entries are filled in, with
    rows that the rollback has removed from the store. *)
Theorem failed_transfer_returns_filled_result :
  TransferTx reliable demo_store demo_overdraft =
    ({| Transfer := Transfer.mk 1 2 1 600;
        FromAccount := Account.zero;
        ToAccount := Account.zero;
        FromEntry := Entry.mk 1 2 (- 600);
        ToEntry := Entry.mk 2 1 600 |},
     Some (ErrInsufficientBalance 2 500 600),
     {| tables := demo_tables;
        log := [ (OpBeginTx, None);
                 (OpCreateTransfer {| ctFromAccountID := 2; ctToAccountID := 1;
                                      ctAmount := 600 |}, None);
                 (OpCreateEntry {| ceAccountID := 2; ceAmount := - 600 |}, None);
                 (OpCreateEntry {| ceAccountID := 1; ceAmount := 600 |}, None);
                 (OpGetAccountForUpdate 1, None);
                 (OpGetAccountForUpdate 2, None);
                 (OpRollback, None) ] |}) /\
  (TransferTx reliable demo_store demo_overdraft).1.1 <> emptyResult.
Proof.
  split; [reflexivity | discriminate].
Qed.

(** C6. The two tests that [updateAccountBalances] makes once both accounts
    are locked, on the first locked account when it is the source and on the
    second when that one is, are one test on the source account:
    [updateAccountBalances] is the function with the single test, and for a
    valid request whose two accounts are there, on a store that answers,
    [TransferTx] returns the insufficient-balance error exactly when the
    balance of the source account is below the amount, whether the source
    has the smaller or the larger ID. *)
Theorem balance_check_is_on_source fault :
  (forall q arg,
      updateAccountBalances fault q arg = updateAccountBalances_unified fault q arg) /\
  (forall store arg a b result err store',
      validateTransferParams arg = None ->
      accounts (tables store) !! FromAccountID arg = Some a ->
      accounts (tables store) !! ToAccountID arg = Some b ->
      quiet fault (length (log store)) 7 ->
      TransferTx fault store arg = (result, err, store') ->
      (err = Some (ErrInsufficientBalance (FromAccountID arg) (Account.Balance a) (Amount arg))
       <-> Account.Balance a < Amount arg) /\
      (forall account balance amount,
          err = Some (ErrInsufficientBalance account balance amount) ->
          account = FromAccountID arg /\ balance = Account.Balance a /\
          amount = Amount arg)).
Proof.
  split.
  - intros q arg. unfold updateAccountBalances, updateAccountBalances_unified.
    rewrite lock_order.
    assert (Hside : Z.min (FromAccountID arg) (ToAccountID arg) = FromAccountID arg \/
                    Z.max (FromAccountID arg) (ToAccountID arg) = FromAccountID arg) by lia.
    set (first := Z.min _ _) in *. set (second := Z.max _ _) in *.
    destruct (GetAccountForUpdate fault q first) as [[a1 [e1|]] q1] eqn:H1; [reflexivity|].
    destruct (GetAccountForUpdate fault q1 second) as [[a2 [e2|]] q2] eqn:H2; [reflexivity|].
    apply GetAccountForUpdate_inv in H1 as (_ & Hr1 & Hv1).
    apply GetAccountForUpdate_inv in H2 as (_ & _ & Hv2).
    rewrite Hr1 in Hv2.
    apply (check_source first second (FromAccountID arg) (Amount arg) a1 a2
             (fun balance =>
                (Account.zero, Account.zero,
                 Some (ErrInsufficientBalance (FromAccountID arg) balance (Amount arg)), q2)));
      [assumption | intros; congruence].
  - intros store arg a b result err store' Hvalid Ha Hb Hq H. split; [split|].
    + intros ->.
      apply (TransferTx_insufficient_inv fault store arg result _ _ _ store' a Hvalid Ha H).
    + intros Hlt.
      rewrite (TransferTx_insufficient fault store arg a b) in H by assumption.
      injection H as _ <- _. reflexivity.
    + intros account balance amount ->.
      pose proof (TransferTx_insufficient_inv fault store arg result _ _ _ store' a
                    Hvalid Ha H).
      tauto.
Qed.

(** The source has the larger ID, and the smaller one: the error is there
    with 500 < 600 and is not with 1000 >= 200. *)
Lemma balance_check_is_on_source_example :
  ((TransferTx reliable demo_store demo_overdraft).1.2
     = Some (ErrInsufficientBalance 2 500 600) <-> 500 < 600) /\
  ((TransferTx reliable demo_store demo_transfer).1.2
     = Some (ErrInsufficientBalance 1 1000 200) <-> 1000 < 200).
Proof.
  split.
  - apply (proj2 (balance_check_is_on_source reliable) demo_store demo_overdraft
             (Account.mk 2 500 "USD") (Account.mk 1 1000 "USD")
             (TransferTx reliable demo_store demo_overdraft).1.1
             (TransferTx reliable demo_store demo_overdraft).1.2
             (TransferTx reliable demo_store demo_overdraft).2).
    + reflexivity.
    + reflexivity.
    + reflexivity.
    + intros n _. reflexivity.
    + reflexivity.
  - apply (proj2 (balance_check_is_on_source reliable) demo_store demo_transfer
             (Account.mk 1 1000 "USD") (Account.mk 2 500 "USD")
             (TransferTx reliable demo_store demo_transfer).1.1
             (TransferTx reliable demo_store demo_transfer).1.2
             (TransferTx reliable demo_store demo_transfer).2).
    + reflexivity.
    + reflexivity.
    + reflexivity.
    + intros n _. reflexivity.
    + reflexivity.
Defined.

(** C7. For every request on which the closure of the transaction fails and
    the rollback that follows fails too, [TransferTx] returns one error made
    of both: its text gives the text of the error of the closure and then
    that of the rollback, so the error that set the rollback off is kept. *)
Theorem rollback_failure_combines_errors fault store arg result e q' msg :
  validateTransferParams arg = None ->
  fault (length (log store)) = None ->
  transferFn fault arg
    {| rows := tables store; calls := log store ++ [(OpBeginTx, None)] |}
    emptyResult = (result, Some e, q') ->
  fault (length (calls q')) = Some msg ->
  TransferTx fault store arg =
    (result, Some (ErrTxRb e (ErrStore msg)),
     {| tables := tables store;
        log := calls q' ++ [(OpRollback, Some (ErrStore msg))] |}) /\
  Error (ErrTxRb e (ErrStore msg)) = "tx err: " +:+ Error e +:+ ", rb err: " +:+ msg.
Proof.
  intros Hvalid Hbegin Hfn Hrb. split; [|reflexivity].
  unfold TransferTx. rewrite Hvalid.
  unfold execTx, BeginTx. rewrite failure_None by assumption.
  rewrite Hfn. unfold Rollback.
  rewrite (failure_Some fault _ msg) by assumption. reflexivity.
Qed.

(** Y cannot pay 600 and the connection is lost at the rollback. *)
Lemma rollback_failure_combines_errors_example :
  TransferTx (failing_at 6 "driver: bad connection") demo_store demo_overdraft =
    ((transferFn (failing_at 6 "driver: bad connection") demo_overdraft
        {| rows := demo_tables; calls := [(OpBeginTx, None)] |} emptyResult).1.1,
     Some (ErrTxRb (ErrInsufficientBalance 2 500 600) (ErrStore "driver: bad connection")),
     {| tables := demo_tables;
        log := calls (transferFn (failing_at 6 "driver: bad connection") demo_overdraft
                        {| rows := demo_tables; calls := [(OpBeginTx, None)] |}
                        emptyResult).2
               ++ [(OpRollback, Some (ErrStore "driver: bad connection"))] |}) /\
  Error (ErrTxRb (ErrInsufficientBalance 2 500 600) (ErrStore "driver: bad connection")) =
    "tx err: insufficient balance: account 2 has 500, trying to transfer 600, rb err: driver: bad connection".
Proof.
  apply (rollback_failure_combines_errors
           (failing_at 6 "driver: bad connection") demo_store demo_overdraft
           (transferFn (failing_at 6 "driver: bad connection") demo_overdraft
              {| rows := demo_tables; calls := [(OpBeginTx, None)] |} emptyResult).1.1
           (ErrInsufficientBalance 2 500 600)
           (transferFn (failing_at 6 "driver: bad connection") demo_overdraft
              {| rows := demo_tables; calls := [(OpBeginTx, None)] |} emptyResult).2
           "driver: bad connection").
  - reflexivity.
  - reflexivity.
  - reflexivity.
  - reflexivity.
Defined.

(** C8, as the code has it. A failure of the accessor (create,
    read-for-update, update) or of begin or commit comes back from
    [TransferTx] as the very error value the failing call returned, with
    nothing added to it; only when the rollback that follows fails too is it
    carried inside the error that combines the two, and a failure of the
    rollback is never returned in another way. *)
Theorem store_errors_returned_unchanged fault store arg result err store' :
  validateTransferParams arg = None ->
  TransferTx fault store arg = (result, err, store') ->
  exists l,
    log store' = log store ++ l /\
    (forall c e,
        In (c, Some e) l -> c <> OpRollback ->
        err = Some e \/
        exists rbErr, In (OpRollback, Some rbErr) l /\ err = Some (ErrTxRb e rbErr)) /\
    (forall rbErr,
        In (OpRollback, Some rbErr) l -> exists e, err = Some (ErrTxRb e rbErr)).
Proof.
  intros Hvalid H.
  apply TransferTx_inv in H as (l & Hl & Hrun & _); [|assumption].
  exists l. split; [assumption|].
  assert (Hfn : forall e l0 c e',
             run (accounts (tables store)) arg (transfer_calls arg) 5 (Some e) l0 ->
             In (c, Some e') l0 -> e' = e /\ c <> OpRollback).
  { intros e l0 c e' Hr Hin.
    inversion Hr as [ | n c0 msg Hn | a Ha Hlt]; subst.
    - apply in_app_or in Hin as [Hin | [[= <- <-] | []]].
      + apply answered_no_error in Hin. contradiction.
      + split; [reflexivity|]. intros ->.
        do 7 (try destruct n as [|n]); simpl in Hn; discriminate.
    - apply answered_no_error in Hin. contradiction. }
  inversion Hrun as [msg | e l0 Hr | e l0 msg Hr | | msg]; subst; split.
  - intros c e [[= <- <-] | []] _. auto.
  - intros rb [[=] | []].
  - intros c e' [[=] | Hin] Hc.
    apply in_app_or in Hin as [Hin | [[=] | []]].
    apply (Hfn _ _ _ _ Hr) in Hin as [-> _]. auto.
  - intros rb [[=] | Hin].
    apply in_app_or in Hin as [Hin | [[=] | []]].
    apply (Hfn _ _ _ _ Hr) in Hin as [_ Hc]. contradiction.
  - intros c e' [[=] | Hin] Hc.
    apply in_app_or in Hin as [Hin | [[= <-] | []]]; [|contradiction].
    apply (Hfn _ _ _ _ Hr) in Hin as [-> _]. right.
    exists (ErrStore msg). split; [|reflexivity].
    right. apply in_or_app. right. left. reflexivity.
  - intros rb [[=] | Hin].
    apply in_app_or in Hin as [Hin | [[= <-] | []]]; [|eauto].
    apply (Hfn _ _ _ _ Hr) in Hin as [_ Hc]. contradiction.
  - intros c e [[=] | Hin] _.
    apply in_app_or in Hin as [Hin | [[=] | []]].
    apply answered_no_error in Hin. contradiction.
  - intros rb [[=] | Hin].
    apply in_app_or in Hin as [Hin | [[=] | []]].
    apply answered_no_error in Hin. contradiction.
  - intros c e [[=] | Hin] _.
    apply in_app_or in Hin as [Hin | [[= <- <-] | []]]; [|auto].
    apply answered_no_error in Hin. contradiction.
  - intros rb [[=] | Hin].
    apply in_app_or in Hin as [Hin | [[=] | []]].
    apply answered_no_error in Hin. contradiction.
Qed.

(** The connection is lost at the first update of a balance. *)
Lemma store_errors_returned_unchanged_example :
  exists l,
    log (TransferTx (failing_at 6 "driver: bad connection") demo_store demo_transfer).2
      = log demo_store ++ l /\
    (forall c e,
        In (c, Some e) l -> c <> OpRollback ->
        (TransferTx (failing_at 6 "driver: bad connection") demo_store demo_transfer).1.2
          = Some e \/
        exists rbErr,
          In (OpRollback, Some rbErr) l /\
          (TransferTx (failing_at 6 "driver: bad connection") demo_store demo_transfer).1.2
            = Some (ErrTxRb e rbErr)) /\
    (forall rbErr,
        In (OpRollback, Some rbErr) l ->
        exists e,
          (TransferTx (failing_at 6 "driver: bad connection") demo_store demo_transfer).1.2
            = Some (ErrTxRb e rbErr)).
Proof.
  apply (store_errors_returned_unchanged (failing_at 6 "driver: bad connection")
           demo_store demo_transfer
           (TransferTx (failing_at 6 "driver: bad connection") demo_store demo_transfer).1.1
           (TransferTx (failing_at 6 "driver: bad connection") demo_store demo_transfer).1.2
           (TransferTx (failing_at 6 "driver: bad connection") demo_store demo_transfer).2).
  - reflexivity.
  - reflexivity.
Defined.

(** C8, as stated, fails. The error of a begin, of a [CreateTransfer], of a
    [GetAccountForUpdate] on an account that is absent, and of a commit, each
    logged with the call that returned it, is the error that [TransferTx]
    returns, the same value with the same text. *)
Lemma store_error_comes_back_unwrapped :
  (In (OpBeginTx, Some (ErrStore "driver: bad connection"))
      (log (TransferTx (failing_at 0 "driver: bad connection") demo_store demo_transfer).2) /\
   (TransferTx (failing_at 0 "driver: bad connection") demo_store demo_transfer).1.2
     = Some (ErrStore "driver: bad connection")) /\
  (In (OpCreateTransfer (toCreateTransferParams demo_transfer),
       Some (ErrStore "driver: bad connection"))
      (log (TransferTx (failing_at 1 "driver: bad connection") demo_store demo_transfer).2) /\
   (TransferTx (failing_at 1 "driver: bad connection") demo_store demo_transfer).1.2
     = Some (ErrStore "driver: bad connection")) /\
  (In (OpGetAccountForUpdate 3, Some ErrNoRows)
      (log (TransferTx reliable demo_store
              {| FromAccountID := 1; ToAccountID := 3; Amount := 200 |}).2) /\
   (TransferTx reliable demo_store
      {| FromAccountID := 1; ToAccountID := 3; Amount := 200 |}).1.2
     = Some ErrNoRows) /\
  (In (OpCommit, Some (ErrStore "driver: bad connection"))
      (log (TransferTx (failing_at 8 "driver: bad connection") demo_store demo_transfer).2) /\
   (TransferTx (failing_at 8 "driver: bad connection") demo_store demo_transfer).1.2
     = Some (ErrStore "driver: bad connection")) /\
  Error (ErrStore "driver: bad connection") = "driver: bad connection".
Proof.
  repeat split; simpl; repeat (first [reflexivity | left; reflexivity | right]).
Qed.

(** C9. An account whose balance is not negative before a call of
    [TransferTx] is still there, with a balance that is not negative, after
    it, whether the call succeeds or fails. *)
Theorem balances_stay_non_negative fault store arg result err store' id a :
  TransferTx fault store arg = (result, err, store') ->
  accounts (tables store) !! id = Some a ->
  0 <= Account.Balance a ->
  exists a',
    accounts (tables store') !! id = Some a' /\
    0 <= Account.Balance a'.
Proof.
  intros H Ha Hnn.
  destruct (validateTransferParams arg) as [e|] eqn:Hvalid.
  { unfold TransferTx in H. rewrite Hvalid in H. injection H as <- <- <-. eauto. }
  apply TransferTx_inv in H as (l & _ & _ & Hdone); [|assumption].
  apply validateTransferParams_None in Hvalid as [Hne Hpos].
  destruct err as [e|]; [rewrite Hdone; eauto|].
  destruct Hdone as (a0 & b0 & Ha0 & Hb0 & Hge & _ & _ & _ & ->). simpl.
  pose proof (neg64_ge (Amount arg) Hpos) as Hneg.
  destruct (decide (id = ToAccountID arg)) as [->|Hto].
  { rewrite lookup_insert_eq. eexists. split; [reflexivity|]. simpl.
    rewrite Ha in Hb0. injection Hb0 as <-. lia. }
  rewrite lookup_insert_ne by auto.
  destruct (decide (id = FromAccountID arg)) as [->|Hfrom].
  { rewrite lookup_insert_eq. eexists. split; [reflexivity|]. simpl.
    rewrite Ha in Ha0. injection Ha0 as <-. lia. }
  rewrite lookup_insert_ne by auto. eauto.
Qed.

(** X gives all it has. *)
Lemma balances_stay_non_negative_example :
  exists a',
    accounts (tables (TransferTx reliable demo_store
                        {| FromAccountID := 1; ToAccountID := 2; Amount := 1000 |}).2) !! 1
      = Some a' /\
    0 <= Account.Balance a'.
Proof.
  apply (balances_stay_non_negative reliable demo_store
           {| FromAccountID := 1; ToAccountID := 2; Amount := 1000 |}
           (TransferTx reliable demo_store
              {| FromAccountID := 1; ToAccountID := 2; Amount := 1000 |}).1.1
           (TransferTx reliable demo_store
              {| FromAccountID := 1; ToAccountID := 2; Amount := 1000 |}).1.2
           (TransferTx reliable demo_store
              {| FromAccountID := 1; ToAccountID := 2; Amount := 1000 |}).2
           1 (Account.mk 1 1000 "USD")).
  - reflexivity.
  - reflexivity.
  - simpl. lia.
Defined.

(** C10. For every valid request that succeeds, [TransferTx] has created
    exactly one transfer, carrying the source ID, the destination ID and the
    amount, and exactly two entries, the first for the source account with
    the amount negated and the second for the destination account with the
    amount; the three rows are created in this order, the transfer first. *)
Theorem successful_transfer_records fault store arg result store' :
  FromAccountID arg <> ToAccountID arg ->
  0 < Amount arg ->
  int64 (Amount arg) ->
  TransferTx fault store arg = (result, None, store') ->
  transfers (tables store') = transfers (tables store) ++ [Transfer result] /\
  Transfer.FromAccountID (Transfer result) = FromAccountID arg /\
  Transfer.ToAccountID (Transfer result) = ToAccountID arg /\
  Transfer.Amount (Transfer result) = Amount arg /\
  entries (tables store') = entries (tables store) ++ [FromEntry result; ToEntry result] /\
  Entry.AccountID (FromEntry result) = FromAccountID arg /\
  Entry.Amount (FromEntry result) = - Amount arg /\
  Entry.AccountID (ToEntry result) = ToAccountID arg /\
  Entry.Amount (ToEntry result) = Amount arg /\
  exists l,
    log store' = log store ++ l /\
    create_calls l =
      [ OpCreateTransfer {| ctFromAccountID := FromAccountID arg;
                            ctToAccountID := ToAccountID arg;
                            ctAmount := Amount arg |};
        OpCreateEntry {| ceAccountID := FromAccountID arg; ceAmount := - Amount arg |};
        OpCreateEntry {| ceAccountID := ToAccountID arg; ceAmount := Amount arg |} ].
Proof.
  intros Hne Hpos Hamt H.
  apply TransferTx_inv in H as (l & Hl & Hrun & Hdone);
    [| apply validateTransferParams_None; auto].
  destruct Hdone as (a & b & _ & _ & _ & _ & _ & -> & ->).
  rewrite neg64_pos by assumption. simpl.
  repeat (split; [reflexivity|]).
  exists l. split; [assumption|].
  inversion Hrun; subst. simpl.
  rewrite neg64_pos by assumption. reflexivity.
Qed.

(** The example of the specification: one transfer (X, Y, 200), and the
    entries (X, -200) and (Y, +200). *)
Lemma successful_transfer_records_example :
  transfers (tables (TransferTx reliable demo_store demo_transfer).2)
    = [] ++ [Transfer (TransferTx reliable demo_store demo_transfer).1.1] /\
  Transfer.FromAccountID (Transfer (TransferTx reliable demo_store demo_transfer).1.1) = 1 /\
  Transfer.ToAccountID (Transfer (TransferTx reliable demo_store demo_transfer).1.1) = 2 /\
  Transfer.Amount (Transfer (TransferTx reliable demo_store demo_transfer).1.1) = 200 /\
  entries (tables (TransferTx reliable demo_store demo_transfer).2)
    = [] ++ [FromEntry (TransferTx reliable demo_store demo_transfer).1.1;
             ToEntry (TransferTx reliable demo_store demo_transfer).1.1] /\
  Entry.AccountID (FromEntry (TransferTx reliable demo_store demo_transfer).1.1) = 1 /\
  Entry.Amount (FromEntry (TransferTx reliable demo_store demo_transfer).1.1) = - 200 /\
  Entry.AccountID (ToEntry (TransferTx reliable demo_store demo_transfer).1.1) = 2 /\
  Entry.Amount (ToEntry (TransferTx reliable demo_store demo_transfer).1.1) = 200 /\
  exists l,
    log (TransferTx reliable demo_store demo_transfer).2 = [] ++ l /\
    create_calls l =
      [ OpCreateTransfer {| ctFromAccountID := 1; ctToAccountID := 2; ctAmount := 200 |};
        OpCreateEntry {| ceAccountID := 1; ceAmount := - 200 |};
        OpCreateEntry {| ceAccountID := 2; ceAmount := 200 |} ].
Proof.
  apply (successful_transfer_records reliable demo_store demo_transfer
           (TransferTx reliable demo_store demo_transfer).1.1
           (TransferTx reliable demo_store demo_transfer).2).
  - simpl. lia.
  - simpl. lia.
  - unfold int64, int64_min, int64_max. simpl. lia.
  - reflexivity.
Defined.

(** * Further properties of [store.go] *)

(** ** More on runs *)

Lemma answered_calls cs c r : In (c, r) (answered cs) -> In c cs /\ r = None.
Proof.
  unfold answered. rewrite in_map_iff. intros (c' & [= <- <-] & Hin). auto.
Qed.

Lemma In_take {A : Type} (x : A) n l : In x (take n l) -> In x l.
Proof.
  rewrite <- !list_elem_of_In. intros H.
  apply list_elem_of_lookup in H as [i Hi].
  apply lookup_take_Some in Hi as [Hi _].
  apply list_elem_of_lookup. eauto.
Qed.

(** A run only makes calls of its list, and no more of them than it has. *)
Lemma run_calls accts arg steps check err l c r :
  run accts arg steps check err l -> In (c, r) l -> In c steps.
Proof.
  intros [ | n c0 msg Hn | a Ha Hlt] Hin.
  - apply answered_calls in Hin. tauto.
  - apply in_app_or in Hin as [Hin | [[= <- <-] | []]].
    + apply answered_calls in Hin as [Hin _]. eapply In_take; eassumption.
    + apply list_elem_of_In, list_elem_of_lookup. eauto.
  - apply answered_calls in Hin as [Hin _]. eapply In_take; eassumption.
Qed.

Lemma run_length accts arg steps check err l :
  run accts arg steps check err l -> (length l <= length steps)%nat.
Proof.
  intros [ | n c0 msg Hn | a Ha Hlt]; unfold answered.
  - rewrite length_map. lia.
  - apply lookup_lt_Some in Hn.
    rewrite length_app, length_map, length_take. simpl. lia.
  - rewrite length_map, length_take. lia.
Qed.

(** The closure of [TransferTx] calls neither begin, nor commit, nor
    rollback. *)
Lemma transfer_calls_inside arg c :
  In c (transfer_calls arg) ->
  c <> OpBeginTx /\ is_commit c = false /\ is_rollback c = false.
Proof.
  unfold transfer_calls, balance_calls. simpl.
  intros H. repeat (destruct H as [<- | H]; [repeat split; discriminate |]).
  contradiction.
Qed.

Section Updates.

Variable fault : nat -> option string.

(** [updateAccountBalances] updates a balance only once both accounts were
    read and the source was found to hold the amount. *)
Lemma updateAccountBalances_updates q arg fromAccount toAccount err q' :
  updateAccountBalances fault q arg = (fromAccount, toAccount, err, q') ->
  exists l,
    calls q' = calls q ++ l /\
    (never is_update l \/
     exists a b,
       accounts (rows q) !! FromAccountID arg = Some a /\
       accounts (rows q) !! ToAccountID arg = Some b /\
       Amount arg <= Account.Balance a).
Proof.
  intros H. unfold updateAccountBalances in H. rewrite lock_order in H.
  assert (Hside : Z.min (FromAccountID arg) (ToAccountID arg) = FromAccountID arg /\
                  Z.max (FromAccountID arg) (ToAccountID arg) = ToAccountID arg \/
                  Z.min (FromAccountID arg) (ToAccountID arg) = ToAccountID arg /\
                  Z.max (FromAccountID arg) (ToAccountID arg) = FromAccountID arg) by lia.
  set (first := Z.min _ _) in *. set (second := Z.max _ _) in *.
  destruct (GetAccountForUpdate fault q first) as [[a1 err1] q1] eqn:H1.
  apply GetAccountForUpdate_inv in H1 as (Hc1 & Hr1 & Hv1).
  destruct err1 as [e1|].
  { injection H as <- <- <- <-. eexists. split; [eassumption|]. left.
    intros c r [[= <- <-] | []]. reflexivity. }
  destruct (GetAccountForUpdate fault q1 second) as [[a2 err2] q2] eqn:H2.
  apply GetAccountForUpdate_inv in H2 as (Hc2 & Hr2 & Hv2).
  rewrite Hc1 in Hc2. rewrite <- app_assoc in Hc2. simpl in Hc2.
  rewrite Hr1 in *.
  destruct err2 as [e2|].
  { injection H as <- <- <- <-. eexists. split; [eassumption|]. left.
    intros c r [[= <- <-] | [[= <- <-] | []]]; reflexivity. }
  rewrite (check_source first second (FromAccountID arg) (Amount arg) a1 a2
             (fun b => (Account.zero, Account.zero,
                        Some (ErrInsufficientBalance (FromAccountID arg) b (Amount arg)), q2)))
    in H by (first [lia | intros; congruence]).
  simpl in H.
  set (a := if first =? FromAccountID arg then a1 else a2) in *.
  set (b := if first =? FromAccountID arg then a2 else a1).
  assert (Ha : accounts (rows q) !! FromAccountID arg = Some a).
  { subst a. destruct (Z.eqb_spec first (FromAccountID arg)); [congruence|].
    destruct Hside as [[? ?]|[? <-]]; [contradiction | assumption]. }
  assert (Hb : accounts (rows q) !! ToAccountID arg = Some b).
  { subst b. destruct (Z.eqb_spec first (FromAccountID arg)) as [Hf|Hf].
    - destruct Hside as [[_ <-]|[? Hs]]; [assumption | congruence].
    - destruct Hside as [[? ?]|[<- _]]; [contradiction | assumption]. }
  clearbody a b.
  destruct (Z.ltb_spec (Account.Balance a) (Amount arg)) as [Hlt|Hge].
  { injection H as <- <- <- <-. eexists. split; [eassumption|]. left.
    intros c r [[= <- <-] | [[= <- <-] | []]]; reflexivity. }
  destruct (AddAccountBalance fault q2 _) as [[a' err3] q3] eqn:H3.
  apply AddAccountBalance_inv in H3 as (Hc3 & _).
  rewrite Hc2 in Hc3. rewrite <- app_assoc in Hc3.
  destruct err3 as [e3|].
  { injection H as <- <- <- <-. eexists. split; [eassumption|]. right. eauto. }
  destruct (AddAccountBalance fault q3 _) as [[b' err4] q4] eqn:H4.
  apply AddAccountBalance_inv in H4 as (Hc4 & _).
  rewrite Hc3 in Hc4. rewrite <- app_assoc in Hc4.
  destruct err4 as [e4|]; injection H as <- <- <- <-;
    (eexists; split; [eassumption|]; right; eauto).
Qed.

End Updates.

Section ClosureUpdates.

Variable fault : nat -> option string.

Lemma never_app p l1 l2 : never p l1 -> never p l2 -> never p (l1 ++ l2).
Proof.
  intros H1 H2 c r Hin. apply in_app_or in Hin as [Hin | Hin]; eauto.
Qed.

Lemma transferFn_updates q arg result result' err q' :
  transferFn fault arg q result = (result', err, q') ->
  exists l,
    calls q' = calls q ++ l /\
    (never is_update l \/
     exists a b,
       accounts (rows q) !! FromAccountID arg = Some a /\
       accounts (rows q) !! ToAccountID arg = Some b /\
       Amount arg <= Account.Balance a).
Proof.
  intros H. unfold transferFn in H.
  destruct (CreateTransfer fault q _) as [[i1 err1] q1] eqn:H1.
  apply CreateTransfer_inv in H1 as (Hc1 & Hv1).
  destruct err1 as [e1|].
  { injection H as <- <- <-. eexists. split; [eassumption|]. left.
    intros c r [[= <- <-] | []]. reflexivity. }
  destruct Hv1 as (_ & Hr1).
  destruct (CreateEntry fault q1 _) as [[i2 err2] q2] eqn:H2.
  apply CreateEntry_inv in H2 as (Hc2 & Hv2).
  rewrite Hc1 in Hc2. rewrite <- app_assoc in Hc2. simpl in Hc2.
  destruct err2 as [e2|].
  { injection H as <- <- <-. eexists. split; [eassumption|]. left.
    intros c r [[= <- <-] | [[= <- <-] | []]]; reflexivity. }
  destruct Hv2 as (_ & Hr2).
  destruct (CreateEntry fault q2 _) as [[i3 err3] q3] eqn:H3.
  apply CreateEntry_inv in H3 as (Hc3 & Hv3).
  rewrite Hc2 in Hc3. rewrite <- app_assoc in Hc3. simpl in Hc3.
  destruct err3 as [e3|].
  { injection H as <- <- <-. eexists. split; [eassumption|]. left.
    intros c r [[= <- <-] | [[= <- <-] | [[= <- <-] | []]]]; reflexivity. }
  destruct Hv3 as (_ & Hr3).
  destruct (updateAccountBalances fault q3 arg) as [[[fa ta] err4] q4] eqn:H4.
  apply updateAccountBalances_updates in H4 as (l & Hc4 & Hup).
  injection H as <- <- <-.
  rewrite Hc3 in Hc4. rewrite <- app_assoc in Hc4.
  eexists. split; [eassumption|].
  destruct Hup as [Hnever | (a & b & Ha & Hb & Hge)].
  - left. apply never_app; [|assumption].
    intros c r [[= <- <-] | [[= <- <-] | [[= <- <-] | []]]]; reflexivity.
  - right. rewrite Hr3, Hr2, Hr1 in Ha, Hb. simpl in Ha, Hb. eauto.
Qed.

(** When the closure fails it has left the two accounts of [result] as they
    were, when empty, or has emptied them. *)
Lemma transferFn_failed_accounts q arg result result' e q' :
  FromAccountID arg <> ToAccountID arg ->
  FromAccount result = Account.zero ->
  ToAccount result = Account.zero ->
  transferFn fault arg q result = (result', Some e, q') ->
  FromAccount result' = Account.zero /\ ToAccount result' = Account.zero.
Proof.
  intros Hne Hfa Hta H. unfold transferFn in H.
  destruct (CreateTransfer fault q _) as [[i1 [e1|]] q1] eqn:H1.
  { injection H as <- _ _. auto. }
  destruct (CreateEntry fault q1 _) as [[i2 [e2|]] q2] eqn:H2.
  { injection H as <- _ _. auto. }
  destruct (CreateEntry fault q2 _) as [[i3 [e3|]] q3] eqn:H3.
  { injection H as <- _ _. auto. }
  destruct (updateAccountBalances fault q3 arg) as [[[fa ta] err4] q4] eqn:H4.
  apply updateAccountBalances_inv in H4 as (l & _ & _ & Hv); [|assumption].
  injection H as <- -> _. simpl. assumption.
Qed.

End ClosureUpdates.

Section TransferLog.

Variable fault : nat -> option string.

(** The calls of [TransferTx] on a valid request: the begin, those of the
    closure, and the call that ends the transaction; a balance is updated
    only when both accounts are there and the source holds the amount. *)
Lemma TransferTx_updates store arg result err store' :
  TransferTx fault store arg = (result, err, store') ->
  exists l,
    log store' = log store ++ l /\
    (never is_update l \/
     exists a b,
       accounts (tables store) !! FromAccountID arg = Some a /\
       accounts (tables store) !! ToAccountID arg = Some b /\
       Amount arg <= Account.Balance a).
Proof.
  intros H. unfold TransferTx in H.
  destruct (validateTransferParams arg) as [e|].
  { injection H as <- <- <-. exists []. rewrite app_nil_r. split; [reflexivity|].
    left. intros c r []. }
  apply execTx_inv in H. simpl in H.
  assert (Hwrap : forall q' ending (r : option error),
             is_update ending = false ->
             (exists l0, calls q' = (log store ++ [(OpBeginTx, None)]) ++ l0 /\
                         (never is_update l0 \/
                          exists a b,
                            accounts (tables store) !! FromAccountID arg = Some a /\
                            accounts (tables store) !! ToAccountID arg = Some b /\
                            Amount arg <= Account.Balance a)) ->
             log store' = calls q' ++ [(ending, r)] ->
             exists l,
               log store' = log store ++ l /\
               (never is_update l \/
                exists a b,
                  accounts (tables store) !! FromAccountID arg = Some a /\
                  accounts (tables store) !! ToAccountID arg = Some b /\
                  Amount arg <= Account.Balance a)).
  { intros q' ending r Hend (l0 & Hc & Hup) Hl.
    rewrite Hc, <- !app_assoc in Hl. eexists. split; [eassumption|].
    destruct Hup as [Hnever | Hok]; [left | right; assumption].
    simpl. intros c r' [[= <- <-] | Hin]; [reflexivity|].
    apply in_app_or in Hin as [Hin | [[= <- <-] | []]]; eauto. }
  destruct H as [(msg & _ & _ & _ & Hl) | [(e & q' & Hfn & _ & H) | (q' & Hfn & H)]].
  - eexists. split; [eassumption|]. left. intros c r [[= <- <-] | []]. reflexivity.
  - apply transferFn_updates in Hfn. simpl in Hfn.
    destruct H as [[_ Hl] | (msg & _ & Hl)].
    + apply (Hwrap q' OpRollback None eq_refl Hfn Hl).
    + apply (Hwrap q' OpRollback _ eq_refl Hfn Hl).
  - apply transferFn_updates in Hfn. simpl in Hfn.
    destruct H as [(_ & _ & Hl) | (msg & _ & _ & Hl)].
    + apply (Hwrap q' OpCommit None eq_refl Hfn Hl).
    + apply (Hwrap q' OpCommit _ eq_refl Hfn Hl).
Qed.

End TransferLog.

(** ** All or nothing *)

(** X1. Whatever its closure does, [execTx] returns no error exactly when the
    last call of the log is a commit that went through; then the closure had
    returned no error and the store holds the rows it left; in every other
    case the rows of the store are those it had before. *)
Theorem execTx_all_or_nothing {R : Type} fault store
    (fn : Queries -> R -> R * option error * Queries) r r' err store' :
  execTx fault store fn r = (r', err, store') ->
  (err = None <-> last (log store') = Some (OpCommit, None)) /\
  match err with
  | None =>
      exists q',
        fn {| rows := tables store; calls := log store ++ [(OpBeginTx, None)] |} r
          = (r', None, q') /\
        tables store' = rows q'
  | Some _ => tables store' = tables store
  end.
Proof.
  intros H. apply execTx_inv in H. simpl in H.
  destruct H as [(msg & -> & _ & Ht & Hl) | [(e & q' & Hfn & Ht & H) | (q' & Hfn & H)]].
  - rewrite Hl, last_snoc. split; [split; discriminate | assumption].
  - destruct H as [[-> Hl] | (msg & -> & Hl)]; rewrite Hl, last_snoc;
      (split; [split; discriminate | assumption]).
  - destruct H as [(-> & Ht & Hl) | (msg & -> & Ht & Hl)]; rewrite Hl, last_snoc.
    + split; [tauto | eauto].
    + split; [split; discriminate | assumption].
Qed.

Lemma execTx_all_or_nothing_example :
  ((execTx reliable demo_store (transferFn reliable demo_transfer) emptyResult).1.2 = None
   <-> last (log (execTx reliable demo_store (transferFn reliable demo_transfer)
                    emptyResult).2) = Some (OpCommit, None)) /\
  exists q',
    transferFn reliable demo_transfer
      {| rows := tables demo_store; calls := log demo_store ++ [(OpBeginTx, None)] |}
      emptyResult
      = ((execTx reliable demo_store (transferFn reliable demo_transfer) emptyResult).1.1,
         None, q') /\
    tables (execTx reliable demo_store (transferFn reliable demo_transfer) emptyResult).2
      = rows q'.
Proof.
  apply (execTx_all_or_nothing reliable demo_store (transferFn reliable demo_transfer)
           emptyResult
           (execTx reliable demo_store (transferFn reliable demo_transfer) emptyResult).1.1
           None
           (execTx reliable demo_store (transferFn reliable demo_transfer) emptyResult).2).
  reflexivity.
Defined.

(** X2. A [TransferTx] that returns an error, whatever the request and
    whatever the call that failed, leaves the accounts, the entries and the
    transfers of the store as they were. *)
Theorem failed_transfer_changes_nothing fault store arg result e store' :
  TransferTx fault store arg = (result, Some e, store') ->
  tables store' = tables store.
Proof.
  intros H.
  destruct (validateTransferParams arg) as [e0|] eqn:Hvalid.
  { unfold TransferTx in H. rewrite Hvalid in H. injection H as _ _ <-. reflexivity. }
  apply TransferTx_inv in H as (l & _ & _ & Hsame); assumption.
Qed.

(** The connection is lost at the second update, after the debit. *)
Lemma failed_transfer_changes_nothing_example :
  tables (TransferTx (failing_at 7 "driver: bad connection") demo_store demo_transfer).2
    = tables demo_store.
Proof.
  apply (failed_transfer_changes_nothing (failing_at 7 "driver: bad connection")
           demo_store demo_transfer
           (TransferTx (failing_at 7 "driver: bad connection") demo_store demo_transfer).1.1
           (ErrStore "driver: bad connection")).
  reflexivity.
Defined.

(** ** Accounts that are not there *)

(** X3. A valid request whose source or destination account is absent
    fails, whatever else happens: [TransferTx] returns an error, updates no
    balance and leaves the rows of the store as they were. *)
Theorem absent_account_fails fault store arg result err store' :
  validateTransferParams arg = None ->
  accounts (tables store) !! FromAccountID arg = None \/
  accounts (tables store) !! ToAccountID arg = None ->
  TransferTx fault store arg = (result, err, store') ->
  (exists e, err = Some e) /\
  tables store' = tables store /\
  exists l, log store' = log store ++ l /\ never is_update l.
Proof.
  intros Hvalid Habsent H.
  assert (Herr : exists e, err = Some e).
  { destruct err as [e|]; [eauto|].
    apply TransferTx_inv in H as (l & _ & _ & (a & b & Ha & Hb & _)); [|assumption].
    destruct Habsent; congruence. }
  split; [assumption|]. destruct Herr as [e ->]. split.
  - pose proof H as H'.
    apply TransferTx_inv in H' as (l & _ & _ & Hsame); assumption.
  - apply TransferTx_updates in H as (l & Hl & [Hnever | (a & b & Ha & Hb & _)]).
    + eauto.
    + destruct Habsent; congruence.
Qed.

(** Account 3 is not there. *)
Lemma absent_account_fails_example :
  (exists e,
      (TransferTx reliable demo_store
         {| FromAccountID := 1; ToAccountID := 3; Amount := 200 |}).1.2 = Some e) /\
  tables (TransferTx reliable demo_store
            {| FromAccountID := 1; ToAccountID := 3; Amount := 200 |}).2
    = tables demo_store /\
  exists l,
    log (TransferTx reliable demo_store
           {| FromAccountID := 1; ToAccountID := 3; Amount := 200 |}).2
      = log demo_store ++ l /\
    never is_update l.
Proof.
  apply (absent_account_fails reliable demo_store
           {| FromAccountID := 1; ToAccountID := 3; Amount := 200 |}
           (TransferTx reliable demo_store
              {| FromAccountID := 1; ToAccountID := 3; Amount := 200 |}).1.1).
  - reflexivity.
  - right. reflexivity.
  - reflexivity.
Defined.

Section Absent.

Variable fault : nat -> option string.

Lemma GetAccountForUpdate_absent q id :
  fault (length (calls q)) = None ->
  accounts (rows q) !! id = None ->
  GetAccountForUpdate fault q id
    = (Account.zero, Some ErrNoRows, record_call q (OpGetAccountForUpdate id) (Some ErrNoRows)).
Proof.
  intros H Hid. unfold GetAccountForUpdate.
  rewrite failure_None by assumption. rewrite Hid. reflexivity.
Qed.

(** On a store that answers, [updateAccountBalances] reports the first of
    the two accounts, in the order of the locks, that is absent. *)
Lemma updateAccountBalances_absent q arg :
  accounts (rows q) !! FromAccountID arg = None \/
  accounts (rows q) !! ToAccountID arg = None ->
  quiet fault (length (calls q)) 2 ->
  exists q',
    updateAccountBalances fault q arg = (Account.zero, Account.zero, Some ErrNoRows, q') /\
    (length (calls q) < length (calls q') <= length (calls q) + 2)%nat.
Proof.
  intros Habsent Hq. unfold updateAccountBalances. rewrite lock_order.
  assert (Hside : accounts (rows q) !! Z.min (FromAccountID arg) (ToAccountID arg) = None \/
                  accounts (rows q) !! Z.max (FromAccountID arg) (ToAccountID arg) = None).
  { assert (Hcases :
              Z.min (FromAccountID arg) (ToAccountID arg) = FromAccountID arg /\
              Z.max (FromAccountID arg) (ToAccountID arg) = ToAccountID arg \/
              Z.min (FromAccountID arg) (ToAccountID arg) = ToAccountID arg /\
              Z.max (FromAccountID arg) (ToAccountID arg) = FromAccountID arg) by lia.
    destruct Hcases as [[-> ->] | [-> ->]]; tauto. }
  set (first := Z.min _ _) in *. set (second := Z.max _ _) in *.
  assert (H0 : fault (length (calls q)) = None) by (apply Hq; lia).
  destruct (accounts (rows q) !! first) as [a1|] eqn:H1.
  - rewrite (GetAccountForUpdate_ok fault q first a1) by assumption.
    destruct Hside as [? | H2]; [discriminate|].
    rewrite GetAccountForUpdate_absent
      by (first [assumption | simpl; rewrite length_app; simpl; apply Hq; lia]).
    eexists. split; [reflexivity|]. simpl. rewrite !length_app. simpl. lia.
  - rewrite GetAccountForUpdate_absent by assumption.
    eexists. split; [reflexivity|]. simpl. rewrite !length_app. simpl. lia.
Qed.

End Absent.

(** X4. On a store that answers, a valid request whose source or
    destination account is absent fails with the error of the read that
    found no row, whatever the balances are, and the store keeps its rows. *)
Theorem absent_account_no_rows fault store arg :
  validateTransferParams arg = None ->
  accounts (tables store) !! FromAccountID arg = None \/
  accounts (tables store) !! ToAccountID arg = None ->
  quiet fault (length (log store)) 7 ->
  exists result store',
    TransferTx fault store arg = (result, Some ErrNoRows, store') /\
    tables store' = tables store.
Proof.
  intros Hvalid Habsent Hq. unfold TransferTx. rewrite Hvalid.
  unfold execTx, BeginTx.
  rewrite failure_None by (apply Hq; lia).
  unfold transferFn.
  rewrite CreateTransfer_ok by (simpl; rewrite ?length_app; simpl; apply Hq; lia). simpl.
  rewrite CreateEntry_ok by (simpl; rewrite ?length_app; simpl; apply Hq; lia). simpl.
  rewrite CreateEntry_ok by (simpl; rewrite ?length_app; simpl; apply Hq; lia). simpl.
  match goal with
  | |- context [updateAccountBalances fault ?q arg] =>
      destruct (updateAccountBalances_absent fault q arg) as (q' & -> & Hlen);
      [assumption | |]
  end.
  { intros n Hn. simpl in Hn. rewrite ?length_app in Hn. simpl in Hn. apply Hq. lia. }
  simpl in Hlen. rewrite ?length_app in Hlen. simpl in Hlen.
  unfold Rollback. rewrite failure_None by (apply Hq; lia).
  do 2 eexists. split; reflexivity.
Qed.

(** Y cannot pay 600, but account 3 is not there: that is the error. *)
Lemma absent_account_no_rows_example :
  exists result store',
    TransferTx reliable demo_store {| FromAccountID := 2; ToAccountID := 3; Amount := 600 |}
      = (result, Some ErrNoRows, store') /\
    tables store' = tables demo_store.
Proof.
  apply (absent_account_no_rows reliable demo_store
           {| FromAccountID := 2; ToAccountID := 3; Amount := 600 |}).
  - reflexivity.
  - right. reflexivity.
  - intros n _. reflexivity.
Defined.

(** ** Transfers that go through, one after the other *)

(** X5. On a store that answers, a valid request between two accounts that
    are there goes through as soon as the source holds the amount, the whole
    balance included, and the credit fits the balance column: [TransferTx]
    returns no error after nine calls, the begin, the seven of the closure
    and the commit. *)
Theorem transfer_goes_through fault store arg a b :
  validateTransferParams arg = None ->
  int64 (Amount arg) ->
  accounts (tables store) !! FromAccountID arg = Some a ->
  accounts (tables store) !! ToAccountID arg = Some b ->
  int64 (Account.Balance a) ->
  int64 (Account.Balance b + Amount arg) ->
  Amount arg <= Account.Balance a ->
  quiet fault (length (log store)) 9 ->
  exists result store',
    TransferTx fault store arg = (result, None, store') /\
    log store' = log store ++ (OpBeginTx, None) :: answered (transfer_calls arg)
                   ++ [(OpCommit, None)].
Proof.
  intros Hvalid Hamt Ha Hb Hia Hib Hge Hq.
  apply (TransferTx_ok fault store arg a b); try assumption.
  apply validateTransferParams_None in Hvalid as [_ Hpos].
  rewrite neg64_pos by assumption.
  unfold int64, int64_min, int64_max in *. lia.
Qed.

(** X gives all it has. *)
Lemma transfer_goes_through_example :
  exists result store',
    TransferTx reliable demo_store {| FromAccountID := 1; ToAccountID := 2; Amount := 1000 |}
      = (result, None, store') /\
    log store' = log demo_store ++ (OpBeginTx, None)
                   :: answered (transfer_calls
                                  {| FromAccountID := 1; ToAccountID := 2; Amount := 1000 |})
                   ++ [(OpCommit, None)].
Proof.
  apply (transfer_goes_through reliable demo_store
           {| FromAccountID := 1; ToAccountID := 2; Amount := 1000 |}
           (Account.mk 1 1000 "USD") (Account.mk 2 500 "USD")).
  - reflexivity.
  - unfold int64, int64_min, int64_max. simpl. lia.
  - reflexivity.
  - reflexivity.
  - unfold int64, int64_min, int64_max. simpl. lia.
  - unfold int64, int64_min, int64_max. simpl. lia.
  - simpl. lia.
  - intros n _. reflexivity.
Defined.

(** The accounts after a transfer that went through. *)
Lemma transferred_accounts arg t result t' a b :
  FromAccountID arg <> ToAccountID arg ->
  accounts t !! FromAccountID arg = Some a ->
  accounts t !! ToAccountID arg = Some b ->
  transferred arg t result t' ->
  accounts t' !! FromAccountID arg = Some (add_balance a (neg64 (Amount arg))) /\
  accounts t' !! ToAccountID arg = Some (add_balance b (Amount arg)) /\
  (forall id, id <> FromAccountID arg -> id <> ToAccountID arg ->
              accounts t' !! id = accounts t !! id) /\
  transfers t' = transfers t ++ [Transfer result] /\
  entries t' = entries t ++ [FromEntry result; ToEntry result] /\
  FromEntry result = Entry.mk (next_id (entries t)) (FromAccountID arg) (neg64 (Amount arg)) /\
  ToEntry result = Entry.mk (next_id (entries t) + 1) (ToAccountID arg) (Amount arg).
Proof.
  intros Hne Ha Hb (a0 & b0 & Ha0 & Hb0 & _ & _ & _ & -> & ->).
  rewrite Ha in Ha0. injection Ha0 as <-.
  rewrite Hb in Hb0. injection Hb0 as <-. simpl.
  rewrite lookup_insert_ne by auto. rewrite !lookup_insert_eq.
  repeat split.
  intros id Hf Ht. rewrite !lookup_insert_ne by auto. reflexivity.
Qed.

(** X6. Once a transfer of the whole balance of an account has gone through,
    the account holds 0, and a further valid transfer out of it, to an
    account that is there and on a store that answers, fails with the
    insufficient-balance error, which gives 0 as its balance, and changes
    nothing. *)
Theorem drained_account_cannot_pay fault store arg result store' a arg' b' :
  FromAccountID arg <> ToAccountID arg ->
  0 < Amount arg ->
  int64 (Amount arg) ->
  accounts (tables store) !! FromAccountID arg = Some a ->
  Amount arg = Account.Balance a ->
  TransferTx fault store arg = (result, None, store') ->
  validateTransferParams arg' = None ->
  FromAccountID arg' = FromAccountID arg ->
  accounts (tables store') !! ToAccountID arg' = Some b' ->
  quiet fault (length (log store')) 7 ->
  Account.Balance (FromAccount result) = 0 /\
  exists result' store'',
    TransferTx fault store' arg'
      = (result', Some (ErrInsufficientBalance (FromAccountID arg) 0 (Amount arg')), store'') /\
    tables store'' = tables store'.
Proof.
  intros Hne Hpos Hamt Ha Hall H Hvalid' Hfrom' Hb' Hq.
  apply TransferTx_inv in H as (l & _ & _ & Hdone);
    [| apply validateTransferParams_None; auto].
  pose proof Hdone as (a0 & b0 & Ha0 & Hb0 & _).
  rewrite Ha in Ha0. injection Ha0 as <-.
  destruct (transferred_accounts arg _ _ _ a b0 Hne Ha Hb0 Hdone)
    as (Ha' & _ & _ & _ & _ & _ & _).
  destruct Hdone as (a1 & b1 & Ha1 & _ & _ & _ & _ & -> & _).
  rewrite Ha in Ha1. injection Ha1 as <-. simpl.
  rewrite neg64_pos by assumption.
  split; [lia|].
  rewrite neg64_pos in Ha' by assumption.
  pose proof (validateTransferParams_None arg') as [Hv _].
  destruct (Hv Hvalid') as [_ Hpos'].
  rewrite <- Hfrom' in Ha'.
  rewrite (TransferTx_insufficient fault store' arg' _ b' Hvalid' Ha' Hb' Hq)
    by (simpl; lia).
  simpl. replace (Account.Balance a + - Amount arg) with 0 by lia.
  rewrite Hfrom'. eauto.
Qed.

(** X has given all it had, and is asked for 5 more. *)
Lemma drained_account_cannot_pay_example :
  Account.Balance
    (FromAccount (TransferTx reliable demo_store
                    {| FromAccountID := 1; ToAccountID := 2; Amount := 1000 |}).1.1) = 0 /\
  exists result' store'',
    TransferTx reliable
      (TransferTx reliable demo_store
         {| FromAccountID := 1; ToAccountID := 2; Amount := 1000 |}).2
      {| FromAccountID := 1; ToAccountID := 2; Amount := 5 |}
      = (result', Some (ErrInsufficientBalance 1 0 5), store'') /\
    tables store''
      = tables (TransferTx reliable demo_store
                  {| FromAccountID := 1; ToAccountID := 2; Amount := 1000 |}).2.
Proof.
  apply (drained_account_cannot_pay reliable demo_store
           {| FromAccountID := 1; ToAccountID := 2; Amount := 1000 |}
           (TransferTx reliable demo_store
              {| FromAccountID := 1; ToAccountID := 2; Amount := 1000 |}).1.1
           (TransferTx reliable demo_store
              {| FromAccountID := 1; ToAccountID := 2; Amount := 1000 |}).2
           (Account.mk 1 1000 "USD")
           {| FromAccountID := 1; ToAccountID := 2; Amount := 5 |}
           (Account.mk 2 1500 "USD")).
  - simpl. lia.
  - simpl. lia.
  - unfold int64, int64_min, int64_max. simpl. lia.
  - reflexivity.
  - reflexivity.
  - reflexivity.
  - reflexivity.
  - reflexivity.
  - reflexivity.
  - intros n _. reflexivity.
Defined.

(** X7. Two calls of [TransferTx] with the same request that both go through
    add up: the source has lost twice the amount, the destination has gained
    twice the amount, and the store has two more transfers and four more
    entries, those of the two results in the order of the calls. *)
Theorem transfer_twice fault store arg result1 store1 result2 store2 a b :
  FromAccountID arg <> ToAccountID arg ->
  0 < Amount arg ->
  int64 (Amount arg) ->
  accounts (tables store) !! FromAccountID arg = Some a ->
  accounts (tables store) !! ToAccountID arg = Some b ->
  TransferTx fault store arg = (result1, None, store1) ->
  TransferTx fault store1 arg = (result2, None, store2) ->
  accounts (tables store2) !! FromAccountID arg
    = Some (add_balance a (- (2 * Amount arg))) /\
  accounts (tables store2) !! ToAccountID arg
    = Some (add_balance b (2 * Amount arg)) /\
  2 * Amount arg <= Account.Balance a /\
  transfers (tables store2)
    = transfers (tables store) ++ [Transfer result1; Transfer result2] /\
  entries (tables store2)
    = entries (tables store)
        ++ [FromEntry result1; ToEntry result1; FromEntry result2; ToEntry result2].
Proof.
  intros Hne Hpos Hamt Ha Hb H1 H2.
  assert (Hvalid : validateTransferParams arg = None)
    by (apply validateTransferParams_None; auto).
  apply TransferTx_inv in H1 as (l1 & _ & _ & Hdone1); [|assumption].
  apply TransferTx_inv in H2 as (l2 & _ & _ & Hdone2); [|assumption].
  destruct (transferred_accounts arg _ _ _ a b Hne Ha Hb Hdone1)
    as (Ha1 & Hb1 & _ & Ht1 & He1 & _).
  destruct (transferred_accounts arg _ _ _ _ _ Hne Ha1 Hb1 Hdone2)
    as (Ha2 & Hb2 & _ & Ht2 & He2 & _).
  destruct Hdone2 as (a1 & _ & Ha1' & _ & Hge2 & _).
  rewrite Ha1 in Ha1'. injection Ha1' as <-. simpl in Hge2.
  rewrite neg64_pos in * by assumption.
  rewrite Ha2, Hb2, Ht2, Ht1, He2, He1, <- !app_assoc. simpl.
  unfold add_balance. simpl.
  replace (Account.Balance a + - Amount arg + - Amount arg)
    with (Account.Balance a + - (2 * Amount arg)) by lia.
  replace (Account.Balance b + Amount arg + Amount arg)
    with (Account.Balance b + 2 * Amount arg) by lia.
  repeat split. lia.
Qed.


Lemma transfer_twice_example :
  accounts (tables (TransferTx reliable demo_after.2 demo_transfer).2)
    !! FromAccountID demo_transfer
    = Some (add_balance (Account.mk 1 1000 "USD") (- (2 * Amount demo_transfer))) /\
  accounts (tables (TransferTx reliable demo_after.2 demo_transfer).2)
    !! ToAccountID demo_transfer
    = Some (add_balance (Account.mk 2 500 "USD") (2 * Amount demo_transfer)) /\
  2 * Amount demo_transfer <= Account.Balance (Account.mk 1 1000 "USD") /\
  transfers (tables (TransferTx reliable demo_after.2 demo_transfer).2)
    = transfers (tables demo_store)
        ++ [Transfer demo_after.1.1;
            Transfer (TransferTx reliable demo_after.2 demo_transfer).1.1] /\
  entries (tables (TransferTx reliable demo_after.2 demo_transfer).2)
    = entries (tables demo_store)
        ++ [FromEntry demo_after.1.1; ToEntry demo_after.1.1;
            FromEntry (TransferTx reliable demo_after.2 demo_transfer).1.1;
            ToEntry (TransferTx reliable demo_after.2 demo_transfer).1.1].
Proof.
  apply (transfer_twice reliable demo_store demo_transfer
           demo_after.1.1 demo_after.2
           (TransferTx reliable demo_after.2 demo_transfer).1.1
           (TransferTx reliable demo_after.2 demo_transfer).2
           (Account.mk 1 1000 "USD") (Account.mk 2 500 "USD")).
  - simpl. lia.
  - simpl. lia.
  - unfold int64, int64_min, int64_max. simpl. lia.
  - reflexivity.
  - reflexivity.
  - vm_compute. reflexivity.
  - vm_compute. reflexivity.
Defined.
(** X8. A transfer followed by the transfer of the same amount back, both
    going through, leaves every account of the store as it was before the
    two. *)
Theorem transfer_and_back fault store arg result1 store1 result2 store2 :
  FromAccountID arg <> ToAccountID arg ->
  0 < Amount arg ->
  int64 (Amount arg) ->
  TransferTx fault store arg = (result1, None, store1) ->
  TransferTx fault store1 (reverse arg) = (result2, None, store2) ->
  accounts (tables store2) = accounts (tables store).
Proof.
  intros Hne Hpos Hamt H1 H2.
  apply TransferTx_inv in H1 as (l1 & _ & _ & Hdone1);
    [| apply validateTransferParams_None; auto].
  apply TransferTx_inv in H2 as (l2 & _ & _ & Hdone2);
    [| apply validateTransferParams_None; simpl; auto].
  pose proof Hdone1 as (a & b & Ha & Hb & _).
  destruct (transferred_accounts arg _ _ _ a b Hne Ha Hb Hdone1)
    as (Ha1 & Hb1 & Hrest1 & _).
  destruct (transferred_accounts (reverse arg) _ _ _ _ _ (not_eq_sym Hne) Hb1 Ha1 Hdone2)
    as (Hb2 & Ha2 & Hrest2 & _).
  simpl in Hb2, Ha2, Hrest2.
  rewrite neg64_pos in * by assumption.
  apply map_eq. intros id.
  destruct (decide (id = FromAccountID arg)) as [->|Hf].
  { rewrite Ha2, Ha. f_equal. destruct a. unfold add_balance. simpl. f_equal. lia. }
  destruct (decide (id = ToAccountID arg)) as [->|Ht].
  { rewrite Hb2, Hb. f_equal. destruct b. unfold add_balance. simpl. f_equal. lia. }
  rewrite Hrest2, Hrest1 by auto. reflexivity.
Qed.


Lemma transfer_and_back_example :
  accounts (tables (TransferTx reliable demo_after.2 (reverse demo_transfer)).2)
    = accounts (tables demo_store).
Proof.
  apply (transfer_and_back reliable demo_store demo_transfer
           demo_after.1.1 demo_after.2
           (TransferTx reliable demo_after.2 (reverse demo_transfer)).1.1).
  - simpl. lia.
  - simpl. lia.
  - unfold int64, int64_min, int64_max. simpl. lia.
  - vm_compute. reflexivity.
  - vm_compute. reflexivity.
Defined.

(** ** What a call leaves alone *)

(** X9. Whatever the outcome, [TransferTx] leaves every account other than
    the source and the destination as it was, neither adds nor removes an
    account, and never changes the ID or the currency of an account. *)
Theorem other_accounts_untouched fault store arg result err store' :
  TransferTx fault store arg = (result, err, store') ->
  (forall id, id <> FromAccountID arg -> id <> ToAccountID arg ->
              accounts (tables store') !! id = accounts (tables store) !! id) /\
  (forall id, accounts (tables store') !! id = None <->
              accounts (tables store) !! id = None) /\
  (forall id a a',
      accounts (tables store) !! id = Some a ->
      accounts (tables store') !! id = Some a' ->
      Account.ID a' = Account.ID a /\ Account.Currency a' = Account.Currency a).
Proof.
  intros H.
  assert (Hsame : tables store' = tables store ->
                  (forall id, id <> FromAccountID arg -> id <> ToAccountID arg ->
                              accounts (tables store') !! id = accounts (tables store) !! id) /\
                  (forall id, accounts (tables store') !! id = None <->
                              accounts (tables store) !! id = None) /\
                  (forall id a a',
                      accounts (tables store) !! id = Some a ->
                      accounts (tables store') !! id = Some a' ->
                      Account.ID a' = Account.ID a /\
                      Account.Currency a' = Account.Currency a)).
  { intros ->. repeat split; try tauto; congruence. }
  destruct (validateTransferParams arg) as [e0|] eqn:Hvalid.
  { unfold TransferTx in H. rewrite Hvalid in H. injection H as _ _ <-. auto. }
  apply TransferTx_inv in H as (l & _ & _ & Hdone); [|assumption].
  destruct err as [e|]; [auto|].
  apply validateTransferParams_None in Hvalid as [Hne Hpos].
  pose proof Hdone as (a & b & Ha & Hb & _).
  destruct (transferred_accounts arg _ _ _ a b Hne Ha Hb Hdone) as (Ha' & Hb' & Hrest & _).
  split; [assumption|]. split.
  - intros id.
    destruct (decide (id = FromAccountID arg)) as [->|Hf];
      [rewrite Ha', Ha; split; discriminate|].
    destruct (decide (id = ToAccountID arg)) as [->|Ht];
      [rewrite Hb', Hb; split; discriminate|].
    rewrite Hrest by assumption. tauto.
  - intros id a0 a0' H0 H0'.
    destruct (decide (id = FromAccountID arg)) as [->|Hf].
    { rewrite Ha' in H0'. rewrite Ha in H0.
      injection H0 as <-. injection H0' as <-. auto. }
    destruct (decide (id = ToAccountID arg)) as [->|Ht].
    { rewrite Hb' in H0'. rewrite Hb in H0.
      injection H0 as <-. injection H0' as <-. auto. }
    rewrite Hrest in H0' by assumption. rewrite H0 in H0'. injection H0' as <-. auto.
Qed.

Lemma other_accounts_untouched_example :
  (forall id, id <> FromAccountID demo_transfer -> id <> ToAccountID demo_transfer ->
              accounts (tables demo_after.2) !! id = accounts (tables demo_store) !! id) /\
  (forall id, accounts (tables demo_after.2) !! id = None <->
              accounts (tables demo_store) !! id = None) /\
  (forall id a a',
      accounts (tables demo_store) !! id = Some a ->
      accounts (tables demo_after.2) !! id = Some a' ->
      Account.ID a' = Account.ID a /\ Account.Currency a' = Account.Currency a).
Proof.
  apply (other_accounts_untouched reliable demo_store demo_transfer
           demo_after.1.1 demo_after.1.2 demo_after.2).
  vm_compute. reflexivity.
Defined.

(** X10. [TransferTx] only ever adds to the transfers, to the entries and to
    the log of calls: the old ones stay in front, in their order. A call that
    returns no error has added one transfer and two entries, a call that
    returns an error none; and no call of [TransferTx] makes more than nine
    calls to the database. *)
Theorem ledger_only_grows fault store arg result err store' :
  TransferTx fault store arg = (result, err, store') ->
  exists ts es l,
    transfers (tables store') = transfers (tables store) ++ ts /\
    entries (tables store') = entries (tables store) ++ es /\
    log store' = log store ++ l /\
    (length l <= 9)%nat /\
    match err with
    | None => length ts = 1%nat /\ length es = 2%nat
    | Some _ => ts = [] /\ es = []
    end.
Proof.
  intros H.
  destruct (validateTransferParams arg) as [e0|] eqn:Hvalid.
  { unfold TransferTx in H. rewrite Hvalid in H. injection H as _ <- <-.
    exists [], [], []. rewrite !app_nil_r. simpl. repeat split. lia. }
  apply TransferTx_inv in H as (l & Hl & Hrun & Hdone); [|assumption].
  assert (Hlen : (length l <= 9)%nat).
  { inversion Hrun as [msg | e l0 Hfn | e l0 msg Hfn | | msg]; subst; simpl;
      try (apply run_length in Hfn; simpl in Hfn);
      rewrite ?length_app; unfold answered; rewrite ?length_map; simpl; lia. }
  destruct err as [e|].
  - exists [], [], l. rewrite Hdone, !app_nil_r. repeat split; assumption.
  - destruct Hdone as (a & b & _ & _ & _ & _ & _ & _ & ->). simpl.
    do 2 eexists. exists l. repeat split; try reflexivity; assumption.
Qed.

Lemma ledger_only_grows_example :
  exists ts es l,
    transfers (tables demo_after.2) = transfers (tables demo_store) ++ ts /\
    entries (tables demo_after.2) = entries (tables demo_store) ++ es /\
    log demo_after.2 = log demo_store ++ l /\
    (length l <= 9)%nat /\
    length ts = 1%nat /\ length es = 2%nat.
Proof.
  apply (ledger_only_grows reliable demo_store demo_transfer
           demo_after.1.1 None demo_after.2).
  vm_compute. reflexivity.
Defined.

(** ** Entries and balances *)

Lemma entries_sum_app es es' :
  entries_sum (es ++ es') = entries_sum es + entries_sum es'.
Proof.
  induction es as [|e es IH]; simpl; [reflexivity|]. rewrite IH. lia.
Qed.

Lemma account_entries_sum_app id es es' :
  account_entries_sum id (es ++ es')
    = account_entries_sum id es + account_entries_sum id es'.
Proof.
  induction es as [|e es IH]; simpl; [reflexivity|].
  rewrite IH. destruct (Entry.AccountID e =? id); lia.
Qed.

(** X11. The entries keep the books of the balances. Whatever the outcome of
    a call of [TransferTx], the amounts of all the entries add up to what
    they added up to before, and for every account the balance has moved by
    what the entries of that account have moved by. *)
Theorem balances_follow_entries fault store arg result err store' :
  int64 (Amount arg) ->
  TransferTx fault store arg = (result, err, store') ->
  entries_sum (entries (tables store')) = entries_sum (entries (tables store)) /\
  forall id a,
    accounts (tables store) !! id = Some a ->
    exists a',
      accounts (tables store') !! id = Some a' /\
      Account.Balance a' - account_entries_sum id (entries (tables store'))
        = Account.Balance a - account_entries_sum id (entries (tables store)).
Proof.
  intros Hamt H.
  destruct (validateTransferParams arg) as [e0|] eqn:Hvalid.
  { unfold TransferTx in H. rewrite Hvalid in H. injection H as _ _ <-. eauto. }
  apply TransferTx_inv in H as (l & _ & _ & Hdone); [|assumption].
  destruct err as [e|]; [rewrite Hdone; eauto|].
  apply validateTransferParams_None in Hvalid as [Hne Hpos].
  pose proof Hdone as (a & b & Ha & Hb & _).
  destruct (transferred_accounts arg _ _ _ a b Hne Ha Hb Hdone)
    as (Ha' & Hb' & Hrest & _ & He & Hfe & Hte).
  rewrite He, Hfe, Hte.
  rewrite neg64_pos in * by assumption.
  split.
  - rewrite entries_sum_app. simpl. lia.
  - intros id a0 H0. rewrite account_entries_sum_app. simpl.
    destruct (decide (id = FromAccountID arg)) as [->|Hf].
    { rewrite Ha in H0. injection H0 as <-.
      eexists. split; [eassumption|]. simpl.
      rewrite Z.eqb_refl, (proj2 (Z.eqb_neq _ _) (not_eq_sym Hne)). lia. }
    destruct (decide (id = ToAccountID arg)) as [->|Ht].
    { rewrite Hb in H0. injection H0 as <-.
      eexists. split; [eassumption|]. simpl.
      rewrite Z.eqb_refl, (proj2 (Z.eqb_neq _ _) Hne). lia. }
    rewrite Hrest by assumption.
    eexists. split; [eassumption|].
    rewrite (proj2 (Z.eqb_neq _ _) (not_eq_sym Hf)), (proj2 (Z.eqb_neq _ _) (not_eq_sym Ht)).
    lia.
Qed.

Lemma balances_follow_entries_example :
  entries_sum (entries (tables demo_after.2)) = entries_sum (entries (tables demo_store)) /\
  forall id a,
    accounts (tables demo_store) !! id = Some a ->
    exists a',
      accounts (tables demo_after.2) !! id = Some a' /\
      Account.Balance a' - account_entries_sum id (entries (tables demo_after.2))
        = Account.Balance a - account_entries_sum id (entries (tables demo_store)).
Proof.
  apply (balances_follow_entries reliable demo_store demo_transfer
           demo_after.1.1 demo_after.1.2 demo_after.2).
  - unfold int64, int64_min, int64_max. simpl. lia.
  - vm_compute. reflexivity.
Defined.

(** ** How a transaction ends *)

(** The calls of a transaction: its begin, those of its closure, its end. *)
Lemma In_transaction (ev first ending : event) (inside : list event) :
  In ev (first :: inside ++ [ending]) -> ev = first \/ In ev inside \/ ev = ending.
Proof.
  intros [<- | Hin]; [auto|].
  apply in_app_or in Hin as [Hin | [<- | []]]; auto.
Qed.

(** X12. For every valid request, [TransferTx] returns no error exactly when
    a commit went through; every transaction that was begun is ended, by a
    commit or by a rollback, and none is ended by both. *)
Theorem transaction_ended_once fault store arg result err store' :
  validateTransferParams arg = None ->
  TransferTx fault store arg = (result, err, store') ->
  exists l,
    log store' = log store ++ l /\
    (err = None <-> In (OpCommit, None) l) /\
    (In (OpBeginTx, None) l ->
     (exists r, In (OpCommit, r) l) \/ (exists r, In (OpRollback, r) l)) /\
    ((exists r, In (OpRollback, r) l) -> never is_commit l).
Proof.
  intros Hvalid H.
  apply TransferTx_inv in H as (l & Hl & Hrun & _); [|assumption].
  exists l. split; [assumption|].
  assert (Hinside : forall e l0 c r,
             run (accounts (tables store)) arg (transfer_calls arg) 5 e l0 ->
             In (c, r) l0 ->
             c <> OpBeginTx /\ is_commit c = false /\ is_rollback c = false).
  { intros e l0 c r Hr Hin. apply (transfer_calls_inside arg).
    apply (run_calls _ _ _ _ _ _ _ _ Hr Hin). }
  assert (Hdone : run (accounts (tables store)) arg (transfer_calls arg) 5 None
                    (answered (transfer_calls arg))) by constructor.
  inversion Hrun as [msg | e l0 Hfn | e l0 msg Hfn | | msg]; subst.
  - split; [|split].
    + split; [discriminate | intros [[=] | []]].
    + intros [[=] | []].
    + intros [r [[=] | []]].
  - split; [|split].
    + split; [discriminate|]. intros Hin.
      apply In_transaction in Hin as [[=] | [Hin | [=]]].
      apply (Hinside _ _ _ _ Hfn) in Hin as (_ & Hc & _). discriminate.
    + intros _. right. exists None. right. apply in_or_app. right. left. reflexivity.
    + intros _ c r Hin.
      apply In_transaction in Hin as [[= -> ->] | [Hin | [= -> ->]]]; try reflexivity.
      apply (Hinside _ _ _ _ Hfn) in Hin as (_ & Hc & _). assumption.
  - split; [|split].
    + split; [discriminate|]. intros Hin.
      apply In_transaction in Hin as [[=] | [Hin | [=]]].
      apply (Hinside _ _ _ _ Hfn) in Hin as (_ & Hc & _). discriminate.
    + intros _. right. eexists. right. apply in_or_app. right. left. reflexivity.
    + intros _ c r Hin.
      apply In_transaction in Hin as [[= -> ->] | [Hin | [= -> ->]]]; try reflexivity.
      apply (Hinside _ _ _ _ Hfn) in Hin as (_ & Hc & _). assumption.
  - split; [|split].
    + split; [|reflexivity]. intros _. right. apply in_or_app. right. left. reflexivity.
    + intros _. left. exists None. right. apply in_or_app. right. left. reflexivity.
    + intros [r Hin].
      apply In_transaction in Hin as [[=] | [Hin | [=]]].
      apply (Hinside _ _ _ _ Hdone) in Hin as (_ & _ & Hc). discriminate.
  - split; [|split].
    + split; [discriminate|]. intros Hin.
      apply In_transaction in Hin as [[=] | [Hin | [=]]].
      apply (Hinside _ _ _ _ Hdone) in Hin as (_ & Hc & _). discriminate.
    + intros _. left. eexists. right. apply in_or_app. right. left. reflexivity.
    + intros [r Hin].
      apply In_transaction in Hin as [[=] | [Hin | [=]]].
      apply (Hinside _ _ _ _ Hdone) in Hin as (_ & _ & Hc). discriminate.
Qed.

Lemma transaction_ended_once_example :
  exists l,
    log (TransferTx reliable demo_store demo_overdraft).2 = log demo_store ++ l /\
    ((TransferTx reliable demo_store demo_overdraft).1.2 = None
     <-> In (OpCommit, None) l) /\
    (In (OpBeginTx, None) l ->
     (exists r, In (OpCommit, r) l) \/ (exists r, In (OpRollback, r) l)) /\
    ((exists r, In (OpRollback, r) l) -> never is_commit l).
Proof.
  apply (transaction_ended_once reliable demo_store demo_overdraft
           (TransferTx reliable demo_store demo_overdraft).1.1
           (TransferTx reliable demo_store demo_overdraft).1.2
           (TransferTx reliable demo_store demo_overdraft).2).
  - reflexivity.
  - reflexivity.
Defined.

(** X13. The result of a [TransferTx] that returns an error has its two
    accounts empty, unless the error is that of the commit: then the closure
    had gone through, and the result is returned filled for a transfer that
    was not committed. *)
Theorem failed_transfer_returns_no_account fault store arg result e store' :
  TransferTx fault store arg = (result, Some e, store') ->
  FromAccount result = Account.zero /\ ToAccount result = Account.zero \/
  last (log store') = Some (OpCommit, Some e) /\
  transferred arg (tables store) result
    (rows (transferFn fault arg
             {| rows := tables store; calls := log store ++ [(OpBeginTx, None)] |}
             emptyResult).2).
Proof.
  intros H. unfold TransferTx in H.
  destruct (validateTransferParams arg) as [e0|] eqn:Hvalid.
  { injection H as <- _ _. auto. }
  apply validateTransferParams_None in Hvalid as [Hne Hpos].
  apply execTx_inv in H. simpl in H.
  destruct H as [(msg & _ & -> & _) | [(e1 & q' & Hfn & _) | (q' & Hfn & H)]].
  - auto.
  - left. apply (transferFn_failed_accounts fault _ arg emptyResult result e1 q' Hne
                   eq_refl eq_refl Hfn).
  - destruct H as [([=] & _) | (msg & [= ->] & _ & Hl)].
    right. rewrite Hl, last_snoc. split; [reflexivity|].
    rewrite Hfn. simpl.
    apply transferFn_inv in Hfn as (l & _ & _ & Hok); [|assumption].
    apply Hok. reflexivity.
Qed.

(** The connection is lost at the commit. *)
Lemma failed_transfer_returns_no_account_example :
  FromAccount (TransferTx (failing_at 8 "driver: bad connection")
                 demo_store demo_transfer).1.1 = Account.zero /\
  ToAccount (TransferTx (failing_at 8 "driver: bad connection")
               demo_store demo_transfer).1.1 = Account.zero \/
  last (log (TransferTx (failing_at 8 "driver: bad connection")
               demo_store demo_transfer).2)
    = Some (OpCommit, Some (ErrStore "driver: bad connection")) /\
  transferred demo_transfer (tables demo_store)
    (TransferTx (failing_at 8 "driver: bad connection") demo_store demo_transfer).1.1
    (rows (transferFn (failing_at 8 "driver: bad connection") demo_transfer
             {| rows := tables demo_store; calls := log demo_store ++ [(OpBeginTx, None)] |}
             emptyResult).2).
Proof.
  apply (failed_transfer_returns_no_account (failing_at 8 "driver: bad connection")
           demo_store demo_transfer
           (TransferTx (failing_at 8 "driver: bad connection") demo_store demo_transfer).1.1
           (ErrStore "driver: bad connection")
           (TransferTx (failing_at 8 "driver: bad connection") demo_store demo_transfer).2).
  reflexivity.
Defined.

(** ** When a balance is updated *)

(** X14. [TransferTx] calls [AddAccountBalance] only for a request whose
    source and destination accounts are both there and whose source holds
    the amount: on every other request, whatever fails or not, no balance is
    ever updated, not even inside the transaction. *)
Theorem balance_updated_only_with_funds fault store arg result err store' :
  TransferTx fault store arg = (result, err, store') ->
  exists l,
    log store' = log store ++ l /\
    ((exists c r, In (c, r) l /\ is_update c = true) ->
     exists a b,
       accounts (tables store) !! FromAccountID arg = Some a /\
       accounts (tables store) !! ToAccountID arg = Some b /\
       Amount arg <= Account.Balance a).
Proof.
  intros H. apply TransferTx_updates in H as (l & Hl & Hup).
  exists l. split; [assumption|].
  intros (c & r & Hin & Hc).
  destruct Hup as [Hnever | Hok]; [|assumption].
  rewrite (Hnever c r Hin) in Hc. discriminate.
Qed.

(** The connection is lost at the second update, after the debit. *)
Lemma balance_updated_only_with_funds_example :
  exists l,
    log (TransferTx (failing_at 7 "driver: bad connection") demo_store demo_transfer).2
      = log demo_store ++ l /\
    ((exists c r, In (c, r) l /\ is_update c = true) ->
     exists a b,
       accounts (tables demo_store) !! FromAccountID demo_transfer = Some a /\
       accounts (tables demo_store) !! ToAccountID demo_transfer = Some b /\
       Amount demo_transfer <= Account.Balance a).
Proof.
  apply (balance_updated_only_with_funds (failing_at 7 "driver: bad connection")
           demo_store demo_transfer
           (TransferTx (failing_at 7 "driver: bad connection") demo_store demo_transfer).1.1
           (TransferTx (failing_at 7 "driver: bad connection") demo_store demo_transfer).1.2
           (TransferTx (failing_at 7 "driver: bad connection") demo_store demo_transfer).2).
  reflexivity.
Defined.

(** ** Locks of transfers that cross *)

(** The calls that lock, on any run of a valid request. *)
Lemma lock_calls_prefix fault store arg result err store' l :
  validateTransferParams arg = None ->
  TransferTx fault store arg = (result, err, store') ->
  log store' = log store ++ l ->
  lock_calls l `prefix_of` [Z.min (FromAccountID arg) (ToAccountID arg);
                            Z.max (FromAccountID arg) (ToAccountID arg)].
Proof.
  intros Hvalid H Hl.
  apply TransferTx_inv in H as (l' & Hl' & Hrun & _); [|assumption].
  rewrite Hl in Hl'. apply app_inv_head in Hl'. subst l'.
  set (smaller := Z.min _ _). set (larger := Z.max _ _).
  assert (Hp0 : [] `prefix_of` [smaller; larger]) by (eexists; reflexivity).
  assert (Hp1 : [smaller] `prefix_of` [smaller; larger]) by (eexists; reflexivity).
  assert (Hp2 : [smaller; larger] `prefix_of` [smaller; larger]) by reflexivity.
  inversion Hrun as [msg | e l0 Hfn | e l0 msg Hfn | | msg]; subst;
    try (inversion Hfn as [ | n c msg' Hn | a Ha Hlt]; subst;
         try (do 7 (try destruct n as [|n]); simpl in Hn; try discriminate;
              injection Hn as <-));
    cbn [transfer_calls balance_calls answered take map app flat_map lock_calls];
    fold smaller larger; assumption.
Qed.

(** X15. Two transfers between the same two accounts, in the same direction
    or in opposite ones, ask for their locks in the same order: of the lists
    of accounts that the two runs have called [GetAccountForUpdate] on, one
    is always an initial part of the other, whatever the stores, the amounts
    and the failures. *)
Theorem crossing_transfers_lock_alike
    fault1 store1 arg1 result1 err1 store1' l1
    fault2 store2 arg2 result2 err2 store2' l2 :
  validateTransferParams arg1 = None ->
  validateTransferParams arg2 = None ->
  FromAccountID arg2 = ToAccountID arg1 /\ ToAccountID arg2 = FromAccountID arg1 \/
  FromAccountID arg2 = FromAccountID arg1 /\ ToAccountID arg2 = ToAccountID arg1 ->
  TransferTx fault1 store1 arg1 = (result1, err1, store1') ->
  TransferTx fault2 store2 arg2 = (result2, err2, store2') ->
  log store1' = log store1 ++ l1 ->
  log store2' = log store2 ++ l2 ->
  lock_calls l1 `prefix_of` lock_calls l2 \/ lock_calls l2 `prefix_of` lock_calls l1.
Proof.
  intros Hv1 Hv2 Hpair H1 H2 Hl1 Hl2.
  pose proof (lock_calls_prefix _ _ _ _ _ _ _ Hv1 H1 Hl1) as Hp1.
  pose proof (lock_calls_prefix _ _ _ _ _ _ _ Hv2 H2 Hl2) as Hp2.
  replace (Z.min (FromAccountID arg2) (ToAccountID arg2))
    with (Z.min (FromAccountID arg1) (ToAccountID arg1)) in Hp2
    by (destruct Hpair as [[-> ->] | [-> ->]]; lia).
  replace (Z.max (FromAccountID arg2) (ToAccountID arg2))
    with (Z.max (FromAccountID arg1) (ToAccountID arg1)) in Hp2
    by (destruct Hpair as [[-> ->] | [-> ->]]; lia).
  apply (prefix_weak_total _ _ _ Hp1 Hp2).
Qed.

(** 200 from X to Y goes through while 600 from Y to X is refused. *)
Lemma crossing_transfers_lock_alike_example :
  lock_calls (log (TransferTx reliable demo_store demo_transfer).2)
    `prefix_of` lock_calls (log (TransferTx reliable demo_store demo_overdraft).2) \/
  lock_calls (log (TransferTx reliable demo_store demo_overdraft).2)
    `prefix_of` lock_calls (log (TransferTx reliable demo_store demo_transfer).2).
Proof.
  apply (crossing_transfers_lock_alike
           reliable demo_store demo_transfer
           (TransferTx reliable demo_store demo_transfer).1.1
           (TransferTx reliable demo_store demo_transfer).1.2
           (TransferTx reliable demo_store demo_transfer).2
           (log (TransferTx reliable demo_store demo_transfer).2)
           reliable demo_store demo_overdraft
           (TransferTx reliable demo_store demo_overdraft).1.1
           (TransferTx reliable demo_store demo_overdraft).1.2
           (TransferTx reliable demo_store demo_overdraft).2
           (log (TransferTx reliable demo_store demo_overdraft).2)).
  - reflexivity.
  - reflexivity.
  - left. split; reflexivity.
  - reflexivity.
  - reflexivity.
  - reflexivity.
  - reflexivity.
Defined.

(** ** The accounts of the calls *)

(** X16. [TransferTx] reads and updates no account but the source and the
    destination of the request: every call it makes is the begin, the
    commit, the rollback or one of the seven calls of the closure, which
    create the transfer and the two entries of the request, lock its two
    accounts, debit its source and credit its destination. *)
Theorem calls_stay_on_the_request fault store arg result err store' :
  validateTransferParams arg = None ->
  TransferTx fault store arg = (result, err, store') ->
  exists l,
    log store' = log store ++ l /\
    (forall c r, In (c, r) l ->
                 In c ([OpBeginTx; OpCommit; OpRollback] ++ transfer_calls arg)) /\
    (forall id r, In (OpGetAccountForUpdate id, r) l ->
                  id = FromAccountID arg \/ id = ToAccountID arg) /\
    (forall x r, In (OpAddAccountBalance x, r) l ->
                 x = {| abID := FromAccountID arg; abAmount := neg64 (Amount arg) |} \/
                 x = {| abID := ToAccountID arg; abAmount := Amount arg |}).
Proof.
  intros Hvalid H.
  apply TransferTx_inv in H as (l & Hl & Hrun & _); [|assumption].
  exists l. split; [assumption|].
  assert (Hdone : run (accounts (tables store)) arg (transfer_calls arg) 5 None
                    (answered (transfer_calls arg))) by constructor.
  assert (Hall : forall c r, In (c, r) l ->
                 In c ([OpBeginTx; OpCommit; OpRollback] ++ transfer_calls arg)).
  { intros c r Hin.
    inversion Hrun as [msg | e l0 Hfn | e l0 msg Hfn | | msg]; subst.
    - destruct Hin as [[= <- <-] | []]. left. reflexivity.
    - apply In_transaction in Hin as [[= -> ->] | [Hin | [= -> ->]]].
      + left. reflexivity.
      + do 3 right. apply (run_calls _ _ _ _ _ _ _ _ Hfn Hin).
      + right. right. left. reflexivity.
    - apply In_transaction in Hin as [[= -> ->] | [Hin | [= -> ->]]].
      + left. reflexivity.
      + do 3 right. apply (run_calls _ _ _ _ _ _ _ _ Hfn Hin).
      + right. right. left. reflexivity.
    - apply In_transaction in Hin as [[= -> ->] | [Hin | [= -> ->]]].
      + left. reflexivity.
      + do 3 right. apply (run_calls _ _ _ _ _ _ _ _ Hdone Hin).
      + right. left. reflexivity.
    - apply In_transaction in Hin as [[= -> ->] | [Hin | [= -> ->]]].
      + left. reflexivity.
      + do 3 right. apply (run_calls _ _ _ _ _ _ _ _ Hdone Hin).
      + right. left. reflexivity. }
  split; [assumption|]. split.
  - intros id r Hin. apply Hall in Hin. simpl in Hin.
    repeat (destruct Hin as [Hin | Hin]; try discriminate); try contradiction;
      injection Hin as <-; lia.
  - intros x r Hin. apply Hall in Hin. simpl in Hin.
    repeat (destruct Hin as [Hin | Hin]; try discriminate); try contradiction;
      injection Hin as <-; auto.
Qed.

Lemma calls_stay_on_the_request_example :
  exists l,
    log demo_after.2 = log demo_store ++ l /\
    (forall c r, In (c, r) l ->
                 In c ([OpBeginTx; OpCommit; OpRollback] ++ transfer_calls demo_transfer)) /\
    (forall id r, In (OpGetAccountForUpdate id, r) l ->
                  id = FromAccountID demo_transfer \/ id = ToAccountID demo_transfer) /\
    (forall x r, In (OpAddAccountBalance x, r) l ->
                 x = {| abID := FromAccountID demo_transfer;
                        abAmount := neg64 (Amount demo_transfer) |} \/
                 x = {| abID := ToAccountID demo_transfer;
                        abAmount := Amount demo_transfer |}).
Proof.
  apply (calls_stay_on_the_request reliable demo_store demo_transfer
           demo_after.1.1 demo_after.1.2 demo_after.2).
  - reflexivity.
  - vm_compute. reflexivity.
Defined.

(** ** A refusal repeated *)

(** X17. A refusal for want of funds is the same when the call is made
    again: after a [TransferTx] that returned the insufficient-balance error,
    the same request on the store it left, if the store answers, returns the
    same error, and the rows are still those of the beginning. *)
Theorem refusal_is_repeated fault store arg result account balance amount store' a b :
  validateTransferParams arg = None ->
  accounts (tables store) !! FromAccountID arg = Some a ->
  accounts (tables store) !! ToAccountID arg = Some b ->
  TransferTx fault store arg
    = (result, Some (ErrInsufficientBalance account balance amount), store') ->
  quiet fault (length (log store')) 7 ->
  exists result' store'',
    TransferTx fault store' arg
      = (result', Some (ErrInsufficientBalance account balance amount), store'') /\
    tables store'' = tables store.
Proof.
  intros Hvalid Ha Hb H Hq.
  pose proof H as H'.
  apply TransferTx_inv in H' as (l & _ & _ & Hsame); [|assumption].
  destruct (TransferTx_insufficient_inv fault store arg result _ _ _ store' a Hvalid Ha H)
    as (-> & -> & -> & Hlt).
  rewrite <- Hsame in Ha, Hb.
  rewrite (TransferTx_insufficient fault store' arg a b) by assumption.
  do 2 eexists. split; [reflexivity|]. simpl. assumption.
Qed.

Lemma refusal_is_repeated_example :
  exists result' store'',
    TransferTx reliable (TransferTx reliable demo_store demo_overdraft).2 demo_overdraft
      = (result', Some (ErrInsufficientBalance 2 500 600), store'') /\
    tables store'' = tables demo_store.
Proof.
  apply (refusal_is_repeated reliable demo_store demo_overdraft
           (TransferTx reliable demo_store demo_overdraft).1.1 2 500 600
           (TransferTx reliable demo_store demo_overdraft).2
           (Account.mk 2 500 "USD") (Account.mk 1 1000 "USD")).
  - reflexivity.
  - reflexivity.
  - reflexivity.
  - reflexivity.
  - intros n _. reflexivity.
Defined.
